(** * A shallow embedding of [solver.py] (class [Solver])

    The solver keeps a puzzle as a Python dictionary from cell names
    (["11"] .. ["99"]) to strings of candidate digits, removes from every
    unsolved cell the digits of its solved neighbours until no further cell
    gets solved, and then guesses.

    The first part follows the source method by method and keeps its names:
    calls return a value or raise, dictionaries keep their insertion order
    and are updated in place, sums of arrays wrap at 64 bits, the iteration
    order of a Python set is a parameter, and the two loops that need not be
    structural ([while True], and [solve] called from [propagate]) take fuel.
    The second part fixes the vocabulary of the specification; the third
    states and proves the properties. *)

From Stdlib Require Import String Ascii DecimalString.
From stdpp Require Import gmap strings.
From Stdlib Require Import ZArith List Lia Bool Permutation.
Import ListNotations.

Local Open Scope string_scope.
Local Open Scope list_scope.
Local Open Scope nat_scope.

(** ** Outcomes of a call *)

(** The exceptions the code of [solver.py] can run into. *)
Inductive exn : Type :=
  | AttributeError
  | AxisError
  | KeyError
  | ValueError.

(** A call returns a value or raises.  [OutOfFuel] is not an outcome of the
    program: it marks a run of the model that was given too few steps, and
    says nothing about the code. *)
Inductive result (A : Type) : Type :=
  | Ret (a : A)
  | Raise (e : exn)
  | OutOfFuel.

Arguments Ret {A} a.
Arguments Raise {A} e.
Arguments OutOfFuel {A}.

Definition bind {A B : Type} (m : result A) (k : A -> result B) : result B :=
  match m with
  | Ret a => k a
  | Raise e => Raise e
  | OutOfFuel => OutOfFuel
  end.

Notation "x <- m ;; k" := (bind m (fun x => k))
  (at level 100, m at next level, right associativity).

(** ** Python strings *)

Module Str.

(** [list(s)]: the one-character strings of [s], in order. *)
Definition chars (s : string) : list string :=
  map (fun c => String c EmptyString) (list_ascii_of_string s).

(** [str(n)] for an integer. *)
Definition str (n : Z) : string := NilZero.string_of_int (Z.to_int n).

(** [int(s)] for a string of decimal digits with an optional minus sign;
    [ValueError] on the empty string and on any other character.  (Python
    also accepts surrounding blanks, a plus sign and underscores; the
    strings of this program are made of the digits 1 to 9 only.) *)
Definition int (s : string) : result Z :=
  match NilZero.int_of_string s with
  | Some i => Ret (Z.of_int i)
  | None => Raise ValueError
  end.

(** Python compares strings by code points, the first difference deciding. *)
Definition ltb (s t : string) : bool :=
  match String.compare s t with Lt => true | _ => false end.

End Str.

(** ** Python dictionaries

    A dictionary keeps its items in insertion order; assigning to a key that
    is present replaces the value where it stands.  Keys are distinct, which
    [Dict.set] maintains. *)

Module Dict.

Definition t (V : Type) : Type := list (string * V).

(** [d.keys()] *)
Definition keys {V} (d : t V) : list string := map fst d.

(** [d.values()] *)
Definition values {V} (d : t V) : list V := map snd d.

(** [d[k]] *)
Fixpoint get {V} (d : t V) (k : string) : result V :=
  match d with
  | [] => Raise KeyError
  | (k', v) :: d' => if String.eqb k k' then Ret v else get d' k
  end.

(** [d[k] = v] *)
Fixpoint set {V} (d : t V) (k : string) (v : V) : t V :=
  match d with
  | [] => [(k, v)]
  | (k', v') :: d' =>
      if String.eqb k k' then (k', v) :: d' else (k', v') :: set d' k v
  end.

(** [dict(pairs)] *)
Definition of_pairs {V} (l : list (string * V)) : t V :=
  fold_left (fun d kv => set d (fst kv) (snd kv)) l [].

End Dict.

(** ** numpy arrays of integers

    An array is its shape and its entries in row-major order.  Sums are taken
    in 64-bit integers and wrap around. *)

Record ndarray : Type := { shape : list nat; data : list Z }.

(** An array has as many entries as its shape says. *)
Definition wf_array (a : ndarray) : Prop :=
  length (data a) = fold_right Nat.mul 1 (shape a).

(** The 64-bit signed integer that [z] wraps to. *)
Definition wrap64 (z : Z) : Z :=
  ((z + 2 ^ 63) mod 2 ^ 64 - 2 ^ 63)%Z.

Module Np.

(** [np.full(shape, v)] *)
Definition full (sh : list nat) (v : Z) : ndarray :=
  {| shape := sh; data := repeat v (fold_right Nat.mul 1 sh) |}.

(** [a[i, j]] for an array of two dimensions and indices within its shape
    (the code reads a 9x9 array at [i, j < 9] only). *)
Definition get2 (a : ndarray) (i j : nat) : Z :=
  nth (i * nth 1 (shape a) 0 + j) (data a) 0%Z.

(** [np.array(l).reshape(sh)] for a list of integers. *)
Definition array_reshape (l : list Z) (sh : list nat) : result ndarray :=
  if length l =? fold_right Nat.mul 1 sh
  then Ret {| shape := sh; data := l |}
  else Raise ValueError.

(** Addition in 64 bits. *)
Definition add64 (x y : Z) : Z := wrap64 (x + y).

(** The entries of [row] added to the running sums [acc]. *)
Fixpoint add_rows (acc row : list Z) : list Z :=
  match acc, row with
  | x :: acc', y :: row' => add64 x y :: add_rows acc' row'
  | _, _ => acc
  end.

(** The slices [a[0], a[1], ...] of [n] entries each. *)
Fixpoint slices (count n : nat) (l : list Z) : list (list Z) :=
  match count with
  | 0 => []
  | S count' => firstn n l :: slices count' n (skipn n l)
  end.

(** [np.sum(a, axis=0)]: the slices along the first axis added up entry by
    entry.  An array without dimensions has no axis 0. *)
Definition sum_axis0 (a : ndarray) : result ndarray :=
  match shape a with
  | [] => Raise AxisError
  | r :: sh =>
      let n := fold_right Nat.mul 1 sh in
      Ret {| shape := sh;
             data := fold_left add_rows (slices r n (data a)) (repeat 0%Z n) |}
  end.

(** [np.sum(a)]: all the entries added up, in 64 bits. *)
Definition sum (a : ndarray) : Z := fold_left add64 (data a) 0%Z.

End Np.

(** ** [Solver.__init__] *)

Definition digits : string := "123456789".

(** [np.full((9, 9), -1)] *)
Definition no_solution : ndarray := Np.full [9; 9] (-1)%Z.

(** [[x + y for x in xs for y in ys]] *)
Definition cross (xs ys : string) : list string :=
  flat_map (fun x => map (fun y => x +:+ y) (Str.chars ys)) (Str.chars xs).

Definition cells : list string := cross digits digits.

Definition rows : list (list string) :=
  map (fun r => cross r digits) (Str.chars digits).

Definition columns : list (list string) :=
  map (fun c => cross digits c) (Str.chars digits).

Definition subgrids : list (list string) :=
  flat_map (fun r => map (fun c => cross r c) ["123"; "456"; "789"])
           ["123"; "456"; "789"].

(** [permutations[c]], the value the dictionary comprehension gives the cell
    [c]: the row, the column and the subgrid that contain it. *)
Definition permutations (c : string) : list (list string) :=
  List.filter (fun p => bool_decide (c ∈ p)) (rows ++ columns ++ subgrids).

(** [sum(ls, [])] *)
Definition sum_lists (ls : list (list string)) : list string :=
  fold_left (fun acc p => acc ++ p) ls [].

(** The table: for every cell, the set of the cells of its row, column and
    subgrid, without the cell itself. *)
Definition neighbours : gmap string (gset string) :=
  list_to_map
    (map (fun c => (c, list_to_set (sum_lists (permutations c)) ∖ {[c]})) cells).

(** ** Codec and validator *)

(** A dictionary value is a string until [to_numpy_array] has replaced it by
    its integer. *)
Inductive pyval : Type :=
  | VStr (s : string)
  | VInt (n : Z).

(** [int(value)] *)
Definition py_int (value : pyval) : result Z :=
  match value with
  | VStr s => Str.int s
  | VInt n => Ret n
  end.

(** A dictionary of strings, as the dictionary of values it is. *)
Definition as_values (d : Dict.t string) : Dict.t pyval :=
  map (fun kv => (fst kv, VStr (snd kv))) d.

(** [to_dictionary]: the dictionary of the cells zipped with the entries,
    then the loop over its items.  The loop assigns to the key it is visiting
    only, so it is a map over the items. *)
Definition to_dictionary (numpy_array : ndarray) (empty_cell : string)
  : Dict.t string :=
  map (fun kv =>
         let str_value := Str.str (snd kv) in
         (fst kv, if String.eqb str_value empty_cell then digits else str_value))
      (Dict.of_pairs (combine cells (data numpy_array))).

(** The loop of [to_numpy_array]: [dictionary[key] = int(value)] for the keys
    [todo] still to visit.  The dictionary is the caller's object, so the
    function hands it back as it leaves it, also when [int] raises. *)
Fixpoint convert_items (todo : list string) (dictionary : Dict.t pyval)
  : Dict.t pyval * result unit :=
  match todo with
  | [] => (dictionary, Ret tt)
  | key :: todo' =>
      match (value <- Dict.get dictionary key ;; py_int value) with
      | Ret n => convert_items todo' (Dict.set dictionary key (VInt n))
      | Raise e => (dictionary, Raise e)
      | OutOfFuel => (dictionary, OutOfFuel)
      end
  end.

(** The entry [np.array] makes of a value; after the loop every value is an
    integer ([convert_items_ints] below). *)
Definition entry_of (v : pyval) : Z :=
  match v with
  | VInt n => n
  | VStr _ => 0%Z
  end.

(** [to_numpy_array]: the dictionary as the call leaves it, and the array
    (or the exception). *)
Definition to_numpy_array (dictionary : Dict.t pyval)
  : Dict.t pyval * result ndarray :=
  let (dictionary', r) := convert_items (Dict.keys dictionary) dictionary in
  (dictionary',
   _ <- r ;; Np.array_reshape (map entry_of (Dict.values dictionary')) [9; 9]).

(** [is_valid_puzzle]: the shape, then every entry until one is out of
    range. *)
Definition is_valid_puzzle (sudoku : ndarray) : bool :=
  if bool_decide (shape sudoku <> [9; 9]) then false
  else
    forallb (fun i =>
      forallb (fun j =>
        negb ((Np.get2 sudoku i j <? 0)%Z || (Np.get2 sudoku i j >? 9)%Z))
        (seq 0 9))
      (seq 0 9).

(** [np.sum(np.sum(sudoku, axis=0)) == 9 * 45] *)
Definition is_valid_solution (sudoku : ndarray) : result bool :=
  sums <- Np.sum_axis0 sudoku ;;
  Ret (Np.sum sums =? 9 * 45)%Z.

(** ** Propagation and search *)

(** What [solve] is called with: the harness passes an array, the guess step
    of [propagate] passes a dictionary. *)
Inductive pyarg : Type :=
  | AArray (a : ndarray)
  | ADict (d : Dict.t string).

(** What [propagate] returns: [False], a dictionary, whatever [solve] gave
    it, or [None] when its [for] loop runs to the end. *)
Inductive propagate_ret : Type :=
  | PFalse
  | PNone
  | PDict (d : Dict.t string)
  | PArray (a : ndarray).

(** How the [while] loop ends. *)
Inductive loop_exit : Type :=
  | Break (sudoku : Dict.t string)
  | ReturnFalse.

(** [len(s)] *)
Definition len (s : string) : nat := String.length s.

(** [len([c for c in sudoku.keys() if len(sudoku[c]) == n])] *)
Definition count_len (n : nat) (sudoku : Dict.t string) : nat :=
  length (List.filter (fun kv => len (snd kv) =? n) sudoku).

(** [[sudoku[k] for k in ks if len(sudoku[k]) == 1]] *)
Fixpoint solved_values (sudoku : Dict.t string) (ks : list string)
  : result (list string) :=
  match ks with
  | [] => Ret []
  | k :: ks' =>
      v <- Dict.get sudoku k ;;
      rest <- solved_values sudoku ks' ;;
      Ret (if len v =? 1 then v :: rest else rest)
  end.

(** [bool(a)] of an array: defined for a single entry only; NumPy raises
    [ValueError] on more than one entry (and, since 2.2, on none). *)
Definition array_truth (a : ndarray) : result bool :=
  match data a with
  | [x] => Ret (negb (x =? 0)%Z)
  | _ => Raise ValueError
  end.

(** Tuples [(len(value), key)] compare by length first, then by key. *)
Definition tuple_ltb (a b : nat * string) : bool :=
  (fst a <? fst b) || ((fst a =? fst b) && Str.ltb (snd a) (snd b)).

(** [min(l)]: the first least element, [ValueError] on an empty sequence. *)
Definition py_min (l : list (nat * string)) : result (nat * string) :=
  match l with
  | [] => Raise ValueError
  | x :: l' => Ret (fold_left (fun m y => if tuple_ltb y m then y else m) l' x)
  end.

(** [((len(value), key) for key, value in sudoku.items() if len(value) > 1)] *)
Definition unsolved_tuples (sudoku : Dict.t string) : list (nat * string) :=
  map (fun kv => (len (snd kv), fst kv))
      (List.filter (fun kv => 1 <? len (snd kv)) sudoku).

(** [''.join(set(value) - solved)] as computed for the cell [key] is a
    parameter [join_set key value solved] of the model: Python leaves the
    iteration order of a set open, and for strings it changes from one process
    to the next.  All that is known of the result is that its characters are
    those of [value] that are no solved neighbour's digit, each once. *)
Definition is_set_join (join_set : string -> string -> list string -> string)
  : Prop :=
  forall key value solved,
    NoDup (Str.chars (join_set key value solved)) /\
    forall c, In c (Str.chars (join_set key value solved)) <->
              In c (Str.chars value) /\ ~ In c solved.

Section Propagate.

Variable join_set : string -> string -> list string -> string.

(** The body of the [for] loop over [sudoku.items()] at the cell [key]:
    remove any digits that appear in solved neighbours. *)
Definition eliminate_cell (key : string) (sudoku : Dict.t string)
  : result (Dict.t string) :=
  value <- Dict.get sudoku key ;;
  if negb (len value =? 1) then
    ks <- match neighbours !! key with
          | Some ks => Ret ks
          | None => Raise KeyError
          end ;;
    solved_neighbours <- solved_values sudoku (elements ks) ;;
    Ret (Dict.set sudoku key (join_set key value solved_neighbours))
  else Ret sudoku.

(** One pass of that loop, for the keys [todo] still to visit.  The
    dictionary is updated in place: a cell sees the values its neighbours
    got earlier in the same pass. *)
Fixpoint eliminate (todo : list string) (sudoku : Dict.t string)
  : result (Dict.t string) :=
  match todo with
  | [] => Ret sudoku
  | key :: todo' =>
      sudoku' <- eliminate_cell key sudoku ;;
      eliminate todo' sudoku'
  end.

(** The [while True] loop; [fuel] bounds the number of passes. *)
Fixpoint elimination_loop (fuel : nat) (sudoku : Dict.t string)
  : result loop_exit :=
  match fuel with
  | 0 => OutOfFuel
  | S fuel' =>
      let prev_solved := count_len 1 sudoku in
      sudoku' <- eliminate (Dict.keys sudoku) sudoku ;;
      if prev_solved =? count_len 1 sudoku' then Ret (Break sudoku')
      else if negb (count_len 0 sudoku' =? 0) then Ret ReturnFalse
      else elimination_loop fuel' sudoku'
  end.

(** The [for digit in sudoku[min_key]] loop, for the digits [todo] still to
    try; [self_solve] is the method [solve]. *)
Fixpoint guess (self_solve : pyarg -> result ndarray)
    (sudoku : Dict.t string) (min_key : string) (todo : list string)
  : result propagate_ret :=
  match todo with
  | [] => Ret PNone
  | digit :: todo' =>
      let next_state := Dict.set sudoku min_key digit in
      next_solve <- self_solve (ADict next_state) ;;
      truth <- array_truth next_solve ;;
      if truth then Ret (PArray next_solve)
      else guess self_solve sudoku min_key todo'
  end.

(** [propagate]: the loop, the test that all cells are solved, the choice of
    the unsolved cell with the fewest candidates, and the guesses. *)
Definition propagate (self_solve : pyarg -> result ndarray) (fuel : nat)
    (sudoku : Dict.t string) : result propagate_ret :=
  exit <- elimination_loop fuel sudoku ;;
  match exit with
  | ReturnFalse => Ret PFalse
  | Break sudoku =>
      if forallb (fun kv => len (snd kv) =? 1) sudoku then Ret (PDict sudoku)
      else
        m <- py_min (unsolved_tuples sudoku) ;;
        let min_key := snd m in
        value <- Dict.get sudoku min_key ;;
        guess self_solve sudoku min_key (Str.chars value)
  end.

(** [solve]; a call costs one unit of [fuel], and what is left bounds the
    passes of the loop and the calls below.  A dictionary has no attribute
    [shape], nor has an array [items]. *)
Fixpoint solve (fuel : nat) (sudoku : pyarg) : result ndarray :=
  match fuel with
  | 0 => OutOfFuel
  | S fuel' =>
      match sudoku with
      | ADict _ => Raise AttributeError
      | AArray a =>
          if negb (is_valid_puzzle a) then Ret no_solution
          else
            solution_dict <-
              propagate (solve fuel') fuel' (to_dictionary a "0") ;;
            match solution_dict with
            | PFalse | PNone | PDict [] => Ret no_solution
            | PDict d =>
                solution_array <- snd (to_numpy_array (as_values d)) ;;
                valid <- is_valid_solution solution_array ;;
                if negb valid then Ret no_solution else Ret solution_array
            | PArray r =>
                truth <- array_truth r ;;
                if negb truth then Ret no_solution else Raise AttributeError
            end
      end
  end.

End Propagate.

(** A set order to run the model with: the characters of [value] in the
    order of the string. *)
Definition join_in_order (key value : string) (solved : list string) : string :=
  String.concat ""
    (nodup string_dec
       (List.filter (fun c => negb (existsb (String.eqb c) solved))
                    (Str.chars value))).

(** Another one: the same characters, last first. *)
Definition join_reversed (key value : string) (solved : list string) : string :=
  String.concat ""
    (rev (nodup string_dec
            (List.filter (fun c => negb (existsb (String.eqb c) solved))
                         (Str.chars value)))).

(** * The vocabulary of the specification

    Grids, positions, units and the states of the propagation, as the
    statements below speak of them. *)

(** ** Grids *)

(** A 9x9 array with the entries [l], row after row. *)
Definition grid (l : list Z) : ndarray := {| shape := [9; 9]; data := l |}.

(** The sum of the entries, without any wrap-around. *)
Definition zsum (l : list Z) : Z := fold_right Z.add 0%Z l.

Definition one_to_nine : list Z := [1; 2; 3; 4; 5; 6; 7; 8; 9]%Z.

Definition empty_grid : ndarray := grid (repeat 0%Z 81).

Definition fives_grid : ndarray := grid (repeat 5%Z 81).

Definition example_solution : ndarray := grid
 [5;3;4;6;7;8;9;1;2;
  6;7;2;1;9;5;3;4;8;
  1;9;8;3;4;2;5;6;7;
  8;5;9;7;6;1;4;2;3;
  4;2;6;8;5;3;7;9;1;
  7;1;3;9;2;4;8;5;6;
  9;6;1;5;3;7;2;8;4;
  2;8;7;4;1;9;6;3;5;
  3;4;5;2;8;6;1;7;9]%Z.

(** A puzzle that elimination alone solves, to [example_solution]. *)
Definition example_puzzle : ndarray := grid
 [5;3;0;0;7;0;0;0;0;
  6;0;0;1;9;5;0;0;0;
  0;9;8;0;0;0;0;6;0;
  8;0;0;0;6;0;0;0;3;
  4;0;0;8;0;3;0;0;1;
  7;0;0;0;2;0;0;0;6;
  0;6;0;0;0;0;2;8;0;
  0;0;0;4;1;9;0;0;5;
  0;0;0;0;8;0;0;7;9]%Z.

(** [example_solution] with its first cell emptied and the 3 next to it
    turned into the 5 that was there: all of 1 to 9 are now given in the row,
    the column or the box of the first cell. *)
Definition example_blocked : ndarray := grid
 [0;5;4;6;7;8;9;1;2;
  6;7;2;1;9;5;3;4;8;
  1;9;8;3;4;2;5;6;7;
  8;5;9;7;6;1;4;2;3;
  4;2;6;8;5;3;7;9;1;
  7;1;3;9;2;4;8;5;6;
  9;6;1;5;3;7;2;8;4;
  2;8;7;4;1;9;6;3;5;
  3;4;5;2;8;6;1;7;9]%Z.

(** A 9x9 array whose entries add up to 2^64 + 405. *)
Definition overflowing_grid : ndarray :=
  grid ([2 ^ 62; 2 ^ 62; 2 ^ 62; 2 ^ 62; 405]%Z ++ repeat 0%Z 76).

(** ** Cells, positions and units *)

(** The character of the digit [n + 1]. *)
Definition digit_char (n : nat) : ascii := ascii_of_nat (49 + n).

(** The name of the cell in row [r] and column [c], both counted from 0. *)
Definition cell_at (r c : nat) : string :=
  String (digit_char r) (String (digit_char c) EmptyString).

Definition cell_of (x : nat * nat) : string := cell_at (fst x) (snd x).

(** Two positions share a row, a column or a 3x3 box. *)
Definition shares_unit (r c r' c' : nat) : bool :=
  (r =? r') || (c =? c') || ((r / 3 =? r' / 3) && (c / 3 =? c' / 3)).

Definition same_cell (r c r' c' : nat) : bool := (r =? r') && (c =? c').

(** The names of the cells other than [(r, c)] that share a unit with it. *)
Definition peers_at (r c : nat) : list string :=
  flat_map (fun r' =>
    flat_map (fun c' =>
      if shares_unit r c r' c' && negb (same_cell r c r' c')
      then [cell_at r' c'] else [])
      (seq 0 9))
    (seq 0 9).

Definition positions : list (nat * nat) :=
  flat_map (fun r => map (pair r) (seq 0 9)) (seq 0 9).

Definition pos_eqb (x y : nat * nat) : bool :=
  (fst x =? fst y) && (snd x =? snd y).

Definition row_unit (r : nat) : list (nat * nat) :=
  map (fun c => (r, c)) (seq 0 9).

Definition column_unit (c : nat) : list (nat * nat) :=
  map (fun r => (r, c)) (seq 0 9).

Definition box_unit (b : nat) : list (nat * nat) :=
  flat_map (fun i => map (fun j => (3 * (b / 3) + i, 3 * (b mod 3) + j)) (seq 0 3))
           (seq 0 3).

(** The 27 units: nine rows, nine columns, nine boxes. *)
Definition units : list (list (nat * nat)) :=
  map row_unit (seq 0 9) ++ map column_unit (seq 0 9) ++ map box_unit (seq 0 9).

(** [k'] is in the neighbour table's set for [k]. *)
Definition is_neighbour (k k' : string) : bool :=
  match neighbours !! k with
  | Some ks => bool_decide (k' ∈ ks)
  | None => false
  end.

(** The position of [k] in [l] (the length of [l] when it is not there). *)
Fixpoint index_of (k : string) (l : list string) : nat :=
  match l with
  | [] => 0
  | x :: l' => if String.eqb k x then 0 else S (index_of k l')
  end.

(** A tuple [(len(value), key)] as a number that grows with the tuple. *)
Definition rank (t : nat * string) : nat :=
  fst t * 81 + index_of (snd t) cells.

(** ** Solved grids and clues *)

(** Each of the digits 1 to 9 occurs exactly once in [l]. *)
Definition each_digit_once (l : list Z) : bool :=
  forallb (fun d => count_occ Z.eq_dec l d =? 1) one_to_nine.

(** Every row, column and box of the grid holds each digit exactly once. *)
Definition is_sudoku_solution (a : ndarray) : bool :=
  forallb (fun u => each_digit_once (map (fun rc => Np.get2 a (fst rc) (snd rc)) u))
          units.


(** The row [r] of a grid, cut out of its entries. *)
Definition row_entries (l : list Z) (r : nat) : list Z :=
  map (fun c => nth (r * 9 + c) l 0%Z) (seq 0 9).

(** ** States of the propagation *)

(** The candidates [to_dictionary] gives a cell that holds [z]. *)
Definition decode (empty_cell : string) (z : Z) : string :=
  if String.eqb (Str.str z) empty_cell then digits else Str.str z.

(** The dictionaries [propagate] works on have the 81 cells as keys. *)
Definition on_cells (d : Dict.t string) : Prop := Dict.keys d = cells.

(** [s] is the value of a solved neighbour of [key]. *)
Definition taken (d : Dict.t string) (key s : string) : Prop :=
  exists ks k, neighbours !! key = Some ks /\ In k (elements ks) /\
               Dict.get d k = Ret s /\ len s = 1.

(** Every cell has nine distinct candidates. *)
Definition all_open (d : Dict.t string) : Prop :=
  forall k v, In (k, v) d -> NoDup (Str.chars v) /\ len v = 9.

(** Every cell has one candidate. *)
Definition all_solved (d : Dict.t string) : Prop :=
  forall k v, In (k, v) d -> len v = 1.

(** The candidates are digits 1 to 9. *)
Definition only_digits (d : Dict.t string) : Prop :=
  forall k v, In (k, v) d ->
  forall c, In c (Str.chars v) -> In c (Str.chars digits).



(** The one-character string of the digit [z]. *)
Definition digit_string (z : Z) : string :=
  String (ascii_of_nat (48 + Z.to_nat z)) EmptyString.

(** The grid [s] has the clues of [a]: it differs from [a] on zeros only. *)
Definition completes (s a : ndarray) : Prop :=
  Forall2 (fun x y => x = 0%Z \/ y = x) (data a) (data s).

(** At every cell, the digit of [s] is among the candidates. *)
Definition admits (s : ndarray) (d : Dict.t string) : Prop :=
  forall r c, r < 9 -> c < 9 ->
    exists v, Dict.get d (cell_at r c) = Ret v /\
              In (Str.str (Np.get2 s r c)) (Str.chars v).

(** The clues of [a] stand in [d] as they were given. *)
Definition keeps_clues (a : ndarray) (d : Dict.t string) : Prop :=
  forall r c, r < 9 -> c < 9 -> Np.get2 a r c <> 0%Z ->
    Dict.get d (cell_at r c) = Ret (Str.str (Np.get2 a r c)).

(** Every cell of [d] is in [d'] with candidates it had in [d], no more of
    them, and the same ones if it was solved. *)
Definition shrinks (d d' : Dict.t string) : Prop :=
  forall k v, Dict.get d k = Ret v ->
    exists v', Dict.get d' k = Ret v' /\
               (forall c, In c (Str.chars v') -> In c (Str.chars v)) /\
               len v' <= len v /\
               (len v = 1 -> v' = v).

(** Two dictionaries with the same keys in the same order whose values have
    the same characters, in whatever order. *)
Definition similar (d1 d2 : Dict.t string) : Prop :=
  Forall2 (fun kv1 kv2 =>
             fst kv1 = fst kv2 /\
             Permutation (Str.chars (snd kv1)) (Str.chars (snd kv2)))
          d1 d2.

(** Two passes end alike: in similar states, or in the same exception. *)
Definition similar_results (r1 r2 : result (Dict.t string)) : Prop :=
  match r1, r2 with
  | Ret d1, Ret d2 => similar d1 d2
  | Raise e1, Raise e2 => e1 = e2
  | OutOfFuel, OutOfFuel => True
  | _, _ => False
  end.

(** Two loops end alike. *)
Definition similar_exits (r1 r2 : result loop_exit) : Prop :=
  match r1, r2 with
  | Ret (Break d1), Ret (Break d2) => similar d1 d2
  | Ret ReturnFalse, Ret ReturnFalse => True
  | Raise e1, Raise e2 => e1 = e2
  | OutOfFuel, OutOfFuel => True
  | _, _ => False
  end.

(** What [propagate] comes to once its loop has ended with [exit]. *)
Definition after_loop (exit : loop_exit) : result propagate_ret :=
  match exit with
  | ReturnFalse => Ret PFalse
  | Break d =>
      if forallb (fun kv => len (snd kv) =? 1) d then Ret (PDict d)
      else if existsb (fun kv => 1 <? len (snd kv)) d then Raise AttributeError
      else Raise ValueError
  end.

(** ** Checks that are run once over the table *)

(** The set of the cell at [(r, c)] has 20 members, its peers. *)
Definition neighbours_check (r c : nat) : bool :=
  match neighbours !! cell_at r c with
  | Some s => (size s =? 20) && bool_decide (s = list_to_set (peers_at r c))
  | None => false
  end.

(** The neighbours of [k] are cells other than [k] that have [k] as a
    neighbour. *)
Definition neighbours_closed_check (k : string) : bool :=
  match neighbours !! k with
  | Some ks =>
      forallb (fun x =>
                 bool_decide (x ∈ cells) && negb (String.eqb x k) &&
                 match neighbours !! x with
                 | Some xs => bool_decide (k ∈ xs)
                 | None => false
                 end)
              (elements ks)
  | None => false
  end.

(** A unit has nine positions on the grid, neighbours of one another. *)
Definition unit_check (u : list (nat * nat)) : bool :=
  (length u =? 9) &&
  forallb (fun x => (fst x <? 9) && (snd x <? 9)) u &&
  forallb (fun x =>
    forallb (fun y => pos_eqb x y || is_neighbour (cell_of x) (cell_of y)) u) u.

(** Some unit holds both positions. *)
Definition common_unit (x y : nat * nat) : bool :=
  existsb (fun u => existsb (pos_eqb x) u && existsb (pos_eqb y) u) units.

(** * Properties *)

(** ** The neighbour table *)

Lemma cells_positions :
  cells = flat_map (fun r => map (cell_at r) (seq 0 9)) (seq 0 9).
Proof. reflexivity. Qed.

Lemma cells_length : length cells = 81.
Proof. reflexivity. Qed.

Lemma cells_NoDup : NoDup cells.
Proof.
  assert (H : nodup string_dec cells = cells) by (vm_compute; reflexivity).
  rewrite <- H. apply NoDup_nodup.
Qed.

Lemma neighbours_check_all :
  forallb (fun r => forallb (neighbours_check r) (seq 0 9)) (seq 0 9) = true.
Proof. vm_compute. reflexivity. Qed.

Lemma in_peers_at r c x :
  In x (peers_at r c) <->
  exists r' c', r' < 9 /\ c' < 9 /\ x = cell_at r' c' /\
                (r', c') <> (r, c) /\ shares_unit r c r' c' = true.
Proof.
  unfold peers_at. rewrite in_flat_map. split.
  - intros (r' & Hr' & Hx). apply in_flat_map in Hx as (c' & Hc' & Hx).
    apply in_seq in Hr', Hc'.
    destruct (shares_unit r c r' c') eqn:Hs; simpl in Hx; [|contradiction].
    destruct (same_cell r c r' c') eqn:Hn; simpl in Hx; [contradiction|].
    destruct Hx as [<-|[]]. exists r', c'.
    split; [lia|]. split; [lia|]. split; [reflexivity|]. split; [|exact Hs].
    intros [= -> ->]. unfold same_cell in Hn. rewrite !Nat.eqb_refl in Hn.
    discriminate.
  - intros (r' & c' & Hr' & Hc' & -> & Hne & Hs).
    exists r'. split; [apply in_seq; lia|].
    apply in_flat_map. exists c'. split; [apply in_seq; lia|].
    rewrite Hs. simpl.
    destruct (same_cell r c r' c') eqn:Hn; simpl; [|now left].
    unfold same_cell in Hn. apply andb_prop in Hn as [H1 H2].
    apply Nat.eqb_eq in H1, H2. subst. now destruct Hne.
Qed.

(** The neighbours of the cell at [(r, c)], as the list of its peers. *)
Lemma neighbours_at r c ks :
  r < 9 -> c < 9 -> neighbours !! cell_at r c = Some ks ->
  size ks = 20 /\ forall x, x ∈ ks <-> In x (peers_at r c).
Proof.
  intros Hr Hc Hks. pose proof neighbours_check_all as Hall.
  rewrite forallb_forall in Hall.
  specialize (Hall r ltac:(apply in_seq; lia)).
  rewrite forallb_forall in Hall.
  specialize (Hall c ltac:(apply in_seq; lia)).
  unfold neighbours_check in Hall. rewrite Hks in Hall.
  apply andb_prop in Hall as [Hsize Heq].
  split; [now apply Nat.eqb_eq|].
  apply bool_decide_eq_true in Heq. intros x. rewrite Heq.
  now rewrite elem_of_list_to_set, list_elem_of_In.
Qed.

(** C7. The neighbour table gives every one of the 81 cells, named by its row
    [r] and column [c], a set of exactly 20 cells: the cells other than
    itself that share its row, its column or its 3x3 box. *)
Theorem neighbours_are_the_20_peers (r c : nat) :
  r < 9 -> c < 9 ->
  In (cell_at r c) cells /\
  exists s : gset string,
    neighbours !! cell_at r c = Some s /\
    size s = 20 /\
    forall x, x ∈ s <->
      exists r' c', r' < 9 /\ c' < 9 /\ x = cell_at r' c' /\
                    (r', c') <> (r, c) /\ shares_unit r c r' c' = true.
Proof.
  intros Hr Hc. split.
  { rewrite cells_positions. apply in_flat_map. exists r.
    split; [apply in_seq; lia|]. apply in_map, in_seq. lia. }
  pose proof neighbours_check_all as Hall.
  rewrite forallb_forall in Hall.
  specialize (Hall r ltac:(apply in_seq; lia)).
  rewrite forallb_forall in Hall.
  specialize (Hall c ltac:(apply in_seq; lia)).
  unfold neighbours_check in Hall.
  destruct (neighbours !! cell_at r c) as [s|] eqn:Hs; [|discriminate].
  destruct (neighbours_at r c s Hr Hc Hs) as [Hsize Hpeers].
  exists s. split; [reflexivity|]. split; [exact Hsize|].
  intros x. rewrite Hpeers. apply in_peers_at.
Qed.

(** The table has no other keys. *)
Lemma neighbours_dom : dom neighbours = list_to_set cells.
Proof. apply (bool_decide_unpack _). vm_compute. exact I. Qed.

Lemma neighbours_are_the_20_peers_witness :
  4 < 9 /\ 4 < 9 /\
  In (cell_at 4 4) cells /\
  exists s : gset string,
    neighbours !! cell_at 4 4 = Some s /\
    size s = 20 /\
    forall x, x ∈ s <->
      exists r' c', r' < 9 /\ c' < 9 /\ x = cell_at r' c' /\
                    (r', c') <> (4, 4) /\ shares_unit 4 4 r' c' = true.
Proof.
  split; [lia|]. split; [lia|].
  apply (neighbours_are_the_20_peers 4 4); lia.
Defined.

(** ** 64-bit sums *)

Section Sums.

Local Open Scope Z_scope.

Lemma wrap64_small z : - 2 ^ 63 <= z < 2 ^ 63 -> wrap64 z = z.
Proof. intros H. unfold wrap64. rewrite Z.mod_small; lia. Qed.

Lemma wrap64_range z : - 2 ^ 63 <= wrap64 z < 2 ^ 63.
Proof.
  unfold wrap64.
  pose proof (Z.mod_pos_bound (z + 2 ^ 63) (2 ^ 64) ltac:(lia)). lia.
Qed.

Lemma wrap64_congr x y :
  x mod 2 ^ 64 = y mod 2 ^ 64 -> wrap64 x = wrap64 y.
Proof.
  intros H. unfold wrap64. f_equal.
  rewrite (Z.add_mod x), (Z.add_mod y), H by lia. reflexivity.
Qed.

Lemma wrap64_mod z : wrap64 z mod 2 ^ 64 = z mod 2 ^ 64.
Proof.
  unfold wrap64.
  rewrite Zminus_mod, Z.mod_mod, <- Zminus_mod by lia.
  f_equal. lia.
Qed.

Lemma wrap64_idem z : wrap64 (wrap64 z) = wrap64 z.
Proof. apply wrap64_small, wrap64_range. Qed.

Lemma add64_mod x y x' y' :
  x mod 2 ^ 64 = x' mod 2 ^ 64 -> y mod 2 ^ 64 = y' mod 2 ^ 64 ->
  Np.add64 x y mod 2 ^ 64 = (x' + y') mod 2 ^ 64.
Proof.
  intros Hx Hy. unfold Np.add64. rewrite wrap64_mod.
  rewrite (Z.add_mod x), (Z.add_mod x'), Hx, Hy by lia. reflexivity.
Qed.

Lemma fold_add64 l a :
  wrap64 a = a -> fold_left Np.add64 l a = wrap64 (a + zsum l).
Proof.
  revert a. induction l as [|x l IH]; intros a Ha; simpl.
  - rewrite Z.add_0_r. symmetry. exact Ha.
  - rewrite IH by apply wrap64_idem.
    apply wrap64_congr. unfold Np.add64.
    rewrite Z.add_mod, wrap64_mod, <- Z.add_mod by lia.
    f_equal. lia.
Qed.

Lemma np_sum_wrap a : Np.sum a = wrap64 (zsum (data a)).
Proof. unfold Np.sum. now rewrite fold_add64. Qed.

Lemma add_rows_length acc row : length (Np.add_rows acc row) = length acc.
Proof.
  revert row. induction acc as [|x acc IH]; intros [|y row]; simpl; auto.
Qed.

Lemma add_rows_zsum acc row :
  length acc = length row ->
  zsum (Np.add_rows acc row) mod 2 ^ 64 = (zsum acc + zsum row) mod 2 ^ 64.
Proof.
  revert row. induction acc as [|x acc IH]; intros [|y row] Hlen;
    simpl in *; try discriminate; [reflexivity|].
  injection Hlen as Hlen. specialize (IH row Hlen).
  unfold Np.add64.
  rewrite Z.add_mod, wrap64_mod, IH, <- Z.add_mod by lia.
  f_equal. lia.
Qed.

Lemma zsum_app l1 l2 : zsum (l1 ++ l2) = zsum l1 + zsum l2.
Proof. induction l1 as [|x l1 IH]; simpl; [reflexivity|]. rewrite IH. lia. Qed.

Lemma fold_add_rows_zsum ls acc :
  Forall (fun row => length row = length acc) ls ->
  zsum (fold_left Np.add_rows ls acc) mod 2 ^ 64
  = (zsum acc + zsum (concat ls)) mod 2 ^ 64.
Proof.
  revert acc. induction ls as [|row ls IH]; intros acc Hall; simpl.
  - f_equal. lia.
  - inversion Hall as [|? ? Hrow Hls]; subst.
    rewrite IH.
    + rewrite Z.add_mod, add_rows_zsum, <- Z.add_mod by (auto; lia).
      f_equal. rewrite zsum_app. lia.
    + rewrite add_rows_length.
      eapply Forall_impl; [|exact Hls]. simpl. intros; lia.
Qed.

Lemma slices_concat count n (l : list Z) :
  length l = (count * n)%nat ->
  concat (Np.slices count n l) = l /\
  Forall (fun row => length row = n) (Np.slices count n l).
Proof.
  revert l. induction count as [|count IH]; intros l Hlen; simpl in *.
  - destruct l; [auto|discriminate].
  - destruct (IH (skipn n l)) as [H1 H2].
    { rewrite length_skipn. lia. }
    rewrite H1, firstn_skipn. split; [reflexivity|].
    constructor; [|exact H2]. rewrite length_firstn. lia.
Qed.

Lemma zsum_repeat0 n : zsum (repeat 0 n) = 0.
Proof. induction n; simpl; lia. Qed.

(** The two nested sums add up all the entries, in 64 bits. *)
Lemma is_valid_solution_wrap a r sh :
  shape a = r :: sh -> wf_array a ->
  is_valid_solution a = Ret (wrap64 (zsum (data a)) =? 9 * 45).
Proof.
  intros Hsh Hwf. unfold is_valid_solution, Np.sum_axis0. rewrite Hsh.
  cbn [bind]. rewrite np_sum_wrap. cbn [data]. do 2 f_equal.
  unfold wf_array in Hwf. rewrite Hsh in Hwf. simpl in Hwf.
  destruct (slices_concat r (fold_right Nat.mul 1%nat sh) (data a) Hwf)
    as [Hc Hl].
  apply wrap64_congr. rewrite fold_add_rows_zsum.
  - rewrite Hc, zsum_repeat0. reflexivity.
  - eapply Forall_impl; [|exact Hl]. simpl. intros ? ->.
    now rewrite repeat_length.
Qed.

Lemma zsum_bound (l : list Z) b :
  0 <= b -> Forall (fun z => - b <= z <= b) l ->
  - (Z.of_nat (length l) * b) <= zsum l <= Z.of_nat (length l) * b.
Proof.
  intros Hb. induction 1 as [|z l Hz Hl IH]; simpl length; simpl zsum.
  - lia.
  - rewrite Nat2Z.inj_succ. lia.
Qed.

End Sums.

(** ** The validator *)

Lemma wf_grid_length a : shape a = [9; 9] -> wf_array a -> length (data a) = 81.
Proof. unfold wf_array. intros ->. auto. Qed.

Lemma get2_grid a i j :
  shape a = [9; 9] -> Np.get2 a i j = nth (i * 9 + j) (data a) 0%Z.
Proof. unfold Np.get2. intros ->. reflexivity. Qed.

Lemma is_valid_puzzle_iff a :
  wf_array a ->
  is_valid_puzzle a = true <->
  shape a = [9; 9] /\ Forall (fun z => (0 <= z <= 9)%Z) (data a).
Proof.
  intros Hwf. unfold is_valid_puzzle.
  destruct (bool_decide (shape a <> [9; 9])) eqn:Hsh.
  - apply bool_decide_eq_true in Hsh. split; [discriminate|tauto].
  - apply bool_decide_eq_false in Hsh.
    assert (Hs : shape a = [9; 9]).
    { destruct (decide (shape a = [9; 9])); tauto. }
    pose proof (wf_grid_length a Hs Hwf) as Hlen.
    rewrite forallb_forall. split.
    + intros H. split; [exact Hs|]. apply Forall_forall. intros z Hz.
      destruct (In_nth _ _ 0%Z Hz) as (p & Hp & <-).
      specialize (H (p / 9) ltac:(apply in_seq; split; [lia|];
        apply Nat.Div0.div_lt_upper_bound; lia)).
      rewrite forallb_forall in H.
      specialize (H (p mod 9) ltac:(apply in_seq; split; [lia|];
        apply Nat.mod_upper_bound; lia)).
      rewrite get2_grid in H by exact Hs.
      replace (p / 9 * 9 + p mod 9) with p in H
        by (rewrite (Nat.div_mod_eq p 9) at 1; lia).
      apply negb_true_iff, orb_false_iff in H as [H1 H2]. lia.
    + intros [_ H] i Hi. apply forallb_forall. intros j Hj.
      apply in_seq in Hi, Hj. rewrite get2_grid by exact Hs.
      rewrite Forall_forall in H.
      specialize (H (nth (i * 9 + j) (data a) 0%Z)
                    ltac:(apply nth_In; lia)).
      apply negb_true_iff, orb_false_iff. lia.
Qed.

(** C6. On a 9x9 grid, [is_valid_solution] answers true exactly when the 81
    entries add up to 405; the answer depends on that sum alone, so no row,
    column or box is looked at.  (The entries are taken small enough for the
    64-bit sum not to wrap, as the entries of any grid of digits are.) *)
Theorem is_valid_solution_is_the_sum_check (a : ndarray) :
  shape a = [9; 9] -> wf_array a ->
  Forall (fun z => (- 2 ^ 56 <= z <= 2 ^ 56)%Z) (data a) ->
  (exists b, is_valid_solution a = Ret b /\
             (b = true <-> zsum (data a) = 405%Z)) /\
  (forall a', shape a' = [9; 9] -> wf_array a' ->
              zsum (data a') = zsum (data a) ->
              is_valid_solution a' = is_valid_solution a).
Proof.
  intros Hs Hwf Hb.
  pose proof (wf_grid_length a Hs Hwf) as Hlen.
  pose proof (zsum_bound (data a) (2 ^ 56) ltac:(lia) Hb) as Hsum.
  rewrite Hlen in Hsum.
  rewrite (is_valid_solution_wrap a 9 [9] Hs Hwf).
  split.
  - eexists. split; [reflexivity|].
    rewrite wrap64_small by lia. rewrite Z.eqb_eq. reflexivity.
  - intros a' Hs' Hwf' Heq.
    rewrite (is_valid_solution_wrap a' 9 [9] Hs' Hwf'), Heq. reflexivity.
Qed.

Lemma is_valid_solution_is_the_sum_check_witness :
  shape fives_grid = [9; 9] /\ wf_array fives_grid /\
  Forall (fun z => (- 2 ^ 56 <= z <= 2 ^ 56)%Z) (data fives_grid) /\
  (exists b, is_valid_solution fives_grid = Ret b /\
             (b = true <-> zsum (data fives_grid) = 405%Z)) /\
  (forall a', shape a' = [9; 9] -> wf_array a' ->
              zsum (data a') = zsum (data fives_grid) ->
              is_valid_solution a' = is_valid_solution fives_grid).
Proof.
  assert (H : Forall (fun z => (- 2 ^ 56 <= z <= 2 ^ 56)%Z) (data fives_grid)).
  { apply Forall_forall. intros z Hz. apply repeat_spec in Hz. lia. }
  split; [reflexivity|]. split; [reflexivity|]. split; [exact H|].
  exact (is_valid_solution_is_the_sum_check fives_grid eq_refl eq_refl H).
Defined.

(** C5. An array that is not 9x9, or that has an entry below 0 or above 9,
    makes [solve] return the grid of 81 entries -1.  One unit of fuel is
    enough: the answer is given before any propagation is started. *)
Theorem solve_rejects_malformed_input
    (join_set : string -> string -> list string -> string)
    (fuel : nat) (a : ndarray) :
  wf_array a ->
  shape a <> [9; 9] \/ Exists (fun z => (z < 0 \/ 9 < z)%Z) (data a) ->
  solve join_set (S fuel) (AArray a) = Ret no_solution /\
  no_solution = grid (repeat (-1)%Z 81).
Proof.
  intros Hwf Hbad. split; [|reflexivity].
  assert (Hv : is_valid_puzzle a = false).
  { destruct (is_valid_puzzle a) eqn:Hv; [|reflexivity].
    apply (is_valid_puzzle_iff a Hwf) in Hv as [Hs Hall].
    destruct Hbad as [Hbad|Hbad]; [contradiction|].
    apply Exists_exists in Hbad as (z & Hz & Hout).
    rewrite Forall_forall in Hall. specialize (Hall z Hz). lia. }
  simpl. rewrite Hv. reflexivity.
Qed.

Lemma solve_rejects_malformed_input_witness :
  wf_array (grid ((-3)%Z :: repeat 0%Z 80)) /\
  (shape (grid ((-3)%Z :: repeat 0%Z 80)) <> [9; 9] \/
   Exists (fun z => (z < 0 \/ 9 < z)%Z) (data (grid ((-3)%Z :: repeat 0%Z 80)))) /\
  solve join_in_order 1 (AArray (grid ((-3)%Z :: repeat 0%Z 80)))
  = Ret no_solution /\
  no_solution = grid (repeat (-1)%Z 81).
Proof.
  assert (H : shape (grid ((-3)%Z :: repeat 0%Z 80)) <> [9; 9] \/
              Exists (fun z => (z < 0 \/ 9 < z)%Z)
                     (data (grid ((-3)%Z :: repeat 0%Z 80)))).
  { right. constructor. lia. }
  split; [reflexivity|]. split; [exact H|].
  exact (solve_rejects_malformed_input join_in_order 0
           (grid ((-3)%Z :: repeat 0%Z 80)) eq_refl H).
Defined.

(** ** Facts about dictionaries *)

Section DictFacts.

Context {V : Type}.
Implicit Types (d : Dict.t V) (k : string) (v : V).

Lemma get_Ret d k v : Dict.get d k = Ret v -> In (k, v) d.
Proof.
  induction d as [|[k' v'] d IH]; simpl; [discriminate|].
  destruct (String.eqb_spec k k') as [->|Hne].
  - intros [= ->]. now left.
  - intros H. right. now apply IH.
Qed.

Lemma get_in_keys d k :
  In k (Dict.keys d) -> exists v, Dict.get d k = Ret v.
Proof.
  induction d as [|[k' v'] d IH]; simpl; [contradiction|].
  destruct (String.eqb_spec k k') as [->|Hne]; [eauto|].
  intros [H|H]; [congruence|auto].
Qed.

Lemma get_In d k v :
  NoDup (Dict.keys d) -> In (k, v) d -> Dict.get d k = Ret v.
Proof.
  induction d as [|[k' v'] d IH]; simpl; [contradiction|].
  intros Hnd [H|H]; inversion Hnd as [|? ? Hk' Hd]; subst.
  - injection H as -> ->. now rewrite String.eqb_refl.
  - destruct (String.eqb_spec k k') as [->|Hne]; [|auto].
    destruct Hk'. change k' with (fst (k', v)). apply in_map, H.
Qed.

Lemma get_not_OutOfFuel d k : Dict.get d k <> OutOfFuel.
Proof.
  induction d as [|[k' v'] d IH]; simpl; [discriminate|].
  destruct (String.eqb k k'); [discriminate|exact IH].
Qed.

Lemma keys_set d k v :
  In k (Dict.keys d) -> Dict.keys (Dict.set d k v) = Dict.keys d.
Proof.
  induction d as [|[k' v'] d IH]; simpl; [contradiction|].
  destruct (String.eqb_spec k k') as [->|Hne]; [reflexivity|].
  intros [H|H]; [congruence|]. simpl. f_equal. now apply IH.
Qed.

Lemma length_set d k v :
  In k (Dict.keys d) -> List.length (Dict.set d k v) = List.length d.
Proof.
  intros H. apply keys_set with (v := v) in H.
  unfold Dict.keys in H. apply (f_equal (@List.length _)) in H.
  now rewrite !length_map in H.
Qed.

Lemma get_set_eq d k v : Dict.get (Dict.set d k v) k = Ret v.
Proof.
  induction d as [|[k' v'] d IH]; simpl.
  - now rewrite String.eqb_refl.
  - destruct (String.eqb_spec k k') as [->|Hne]; simpl.
    + now rewrite String.eqb_refl.
    + apply String.eqb_neq in Hne. now rewrite Hne.
Qed.

Lemma get_set_ne d k k' v :
  k <> k' -> Dict.get (Dict.set d k v) k' = Dict.get d k'.
Proof.
  intros Hne. induction d as [|[k0 v0] d IH]; simpl.
  - apply not_eq_sym, String.eqb_neq in Hne. now rewrite Hne.
  - destruct (String.eqb_spec k k0) as [->|Hne0]; simpl.
    + apply not_eq_sym, String.eqb_neq in Hne. now rewrite Hne.
    + now rewrite IH.
Qed.

Lemma set_same d k v :
  NoDup (Dict.keys d) -> Dict.get d k = Ret v -> Dict.set d k v = d.
Proof.
  induction d as [|[k' v'] d IH]; simpl; [discriminate|].
  intros Hnd. inversion Hnd; subst.
  destruct (String.eqb_spec k k') as [->|Hne].
  - now intros [= ->].
  - intros H. f_equal. now apply IH.
Qed.

Lemma set_fresh d k v :
  ~ In k (Dict.keys d) -> Dict.set d k v = d ++ [(k, v)].
Proof.
  induction d as [|[k' v'] d IH]; simpl; [reflexivity|].
  intros H. destruct (String.eqb_spec k k') as [->|Hne]; [tauto|].
  f_equal. apply IH. tauto.
Qed.

Lemma of_pairs_NoDup (l : list (string * V)) :
  NoDup (map fst l) -> Dict.of_pairs l = l.
Proof.
  unfold Dict.of_pairs.
  enough (H : forall acc, NoDup (map fst (acc ++ l)) ->
            fold_left (fun d kv => Dict.set d (fst kv) (snd kv)) l acc
            = acc ++ l) by apply (H []).
  induction l as [|[k v] l IH]; intros acc Hnd; simpl.
  - now rewrite app_nil_r.
  - rewrite set_fresh.
    + rewrite IH; rewrite <- app_assoc; [reflexivity|exact Hnd].
    + rewrite map_app in Hnd. simpl in Hnd.
      apply NoDup_remove_2 in Hnd. rewrite in_app_iff in Hnd.
      unfold Dict.keys. tauto.
Qed.

Lemma set_middle d1 d2 k v v' :
  ~ In k (Dict.keys d1) ->
  Dict.set (d1 ++ (k, v) :: d2) k v' = d1 ++ (k, v') :: d2.
Proof.
  induction d1 as [|[k0 v0] d1 IH]; simpl; intros H.
  - now rewrite String.eqb_refl.
  - destruct (String.eqb_spec k k0) as [->|Hne]; [tauto|].
    f_equal. apply IH. tauto.
Qed.

Lemma get_middle d1 d2 k v :
  ~ In k (Dict.keys d1) -> Dict.get (d1 ++ (k, v) :: d2) k = Ret v.
Proof.
  induction d1 as [|[k0 v0] d1 IH]; simpl; intros H.
  - now rewrite String.eqb_refl.
  - destruct (String.eqb_spec k k0) as [->|Hne]; [tauto|].
    apply IH. tauto.
Qed.

End DictFacts.

(** ** The decoded puzzle *)

Lemma map_combine_snd {A B C : Type} (f : B -> C) (l1 : list A) (l2 : list B) :
  map (fun kv => (fst kv, f (snd kv))) (combine l1 l2) = combine l1 (map f l2).
Proof.
  revert l2. induction l1 as [|k l1 IH]; intros [|z l2]; simpl; try reflexivity.
  f_equal. apply IH.
Qed.

Lemma map_fst_combine {A B : Type} (l1 : list A) (l2 : list B) :
  length l1 = length l2 -> map fst (combine l1 l2) = l1.
Proof.
  revert l2. induction l1 as [|k l1 IH]; intros [|z l2] H; simpl in *;
    try reflexivity; try discriminate.
  f_equal. apply IH. lia.
Qed.

Lemma map_snd_combine {A B : Type} (l1 : list A) (l2 : list B) :
  length l1 = length l2 -> map snd (combine l1 l2) = l2.
Proof.
  revert l2. induction l1 as [|k l1 IH]; intros [|z l2] H; simpl in *;
    try reflexivity; try discriminate.
  f_equal. apply IH. lia.
Qed.

Lemma to_dictionary_items a e :
  length (data a) = 81 ->
  to_dictionary a e = combine cells (map (decode e) (data a)).
Proof.
  intros Hlen. unfold to_dictionary.
  rewrite of_pairs_NoDup.
  - apply (map_combine_snd (decode e)).
  - replace (map fst (combine cells (data a))) with cells.
    + apply cells_NoDup.
    + symmetry. apply map_fst_combine. now rewrite Hlen.
Qed.

Lemma to_dictionary_keys a e :
  length (data a) = 81 -> Dict.keys (to_dictionary a e) = cells.
Proof.
  intros Hlen. rewrite to_dictionary_items by exact Hlen.
  apply map_fst_combine. now rewrite length_map, Hlen.
Qed.

Lemma to_dictionary_values a e :
  length (data a) = 81 ->
  Dict.values (to_dictionary a e) = map (decode e) (data a).
Proof.
  intros Hlen. rewrite to_dictionary_items by exact Hlen.
  apply map_snd_combine. now rewrite length_map, Hlen.
Qed.

Lemma digit_cases (z : Z) :
  (1 <= z <= 9)%Z ->
  In z [1; 2; 3; 4; 5; 6; 7; 8; 9]%Z.
Proof. simpl. lia. Qed.

Lemma str_digit (z : Z) :
  (1 <= z <= 9)%Z ->
  len (Str.str z) = 1 /\ decode "0" z = Str.str z /\
  Str.int (Str.str z) = Ret z.
Proof.
  intros Hz. apply digit_cases in Hz. simpl in Hz.
  repeat (destruct Hz as [<-|Hz]; [vm_compute; auto|]). contradiction.
Qed.

Lemma decode_zero : decode "0" 0 = digits.
Proof. reflexivity. Qed.

(** ** Facts about the neighbour table used by the propagation *)

Lemma neighbours_closed_all : forallb neighbours_closed_check cells = true.
Proof. vm_compute. reflexivity. Qed.

Lemma neighbours_key k ks : neighbours !! k = Some ks -> In k cells.
Proof.
  intros H. apply (elem_of_dom_2 (D := gset string)) in H.
  rewrite neighbours_dom, elem_of_list_to_set in H.
  now apply list_elem_of_In.
Qed.

Lemma neighbours_lookup k : In k cells -> exists ks, neighbours !! k = Some ks.
Proof.
  intros H. apply list_elem_of_In in H.
  assert (Hd : k ∈ dom neighbours).
  { rewrite neighbours_dom. now apply elem_of_list_to_set. }
  apply elem_of_dom in Hd as [ks Hks]. eauto.
Qed.

Lemma neighbours_closed k ks x :
  neighbours !! k = Some ks -> In x (elements ks) ->
  In x cells /\ x <> k /\
  exists xs, neighbours !! x = Some xs /\ In k (elements xs).
Proof.
  intros Hk Hx. pose proof (neighbours_key k ks Hk) as Hc.
  pose proof neighbours_closed_all as Hall.
  rewrite forallb_forall in Hall. specialize (Hall k Hc).
  unfold neighbours_closed_check in Hall. rewrite Hk in Hall.
  rewrite forallb_forall in Hall. specialize (Hall x Hx).
  apply andb_prop in Hall as [Hall H3]. apply andb_prop in Hall as [H1 H2].
  apply bool_decide_eq_true in H1. apply list_elem_of_In in H1.
  apply negb_true_iff, String.eqb_neq in H2.
  split; [exact H1|]. split; [exact H2|].
  destruct (neighbours !! x) as [xs|]; [|discriminate].
  exists xs. split; [reflexivity|].
  apply bool_decide_eq_true in H3.
  apply list_elem_of_In. now apply elem_of_elements.
Qed.

(** ** Row-major positions *)

Lemma index_of_lt k l : In k l -> index_of k l < length l.
Proof.
  induction l as [|x l IH]; simpl; [contradiction|].
  destruct (String.eqb_spec k x) as [->|Hne]; [lia|].
  intros [H|H]; [congruence|]. apply IH in H. lia.
Qed.

Lemma cells_order_check :
  forallb (fun k1 =>
    forallb (fun k2 =>
      Bool.eqb (Str.ltb k1 k2) (index_of k1 cells <? index_of k2 cells))
      cells) cells = true.
Proof. vm_compute. reflexivity. Qed.

(** On cell names the order of strings is the row-major order. *)
Lemma cells_order k1 k2 :
  In k1 cells -> In k2 cells ->
  Str.ltb k1 k2 = (index_of k1 cells <? index_of k2 cells).
Proof.
  intros H1 H2. pose proof cells_order_check as H.
  rewrite forallb_forall in H. specialize (H k1 H1).
  rewrite forallb_forall in H. specialize (H k2 H2).
  now apply Bool.eqb_prop in H.
Qed.

Lemma cells_index_check :
  forallb (fun r =>
    forallb (fun c => index_of (cell_at r c) cells =? 9 * r + c) (seq 0 9))
    (seq 0 9) = true.
Proof. vm_compute. reflexivity. Qed.

Lemma index_of_cell_at r c :
  r < 9 -> c < 9 -> index_of (cell_at r c) cells = 9 * r + c.
Proof.
  intros Hr Hc. pose proof cells_index_check as H.
  rewrite forallb_forall in H. specialize (H r ltac:(apply in_seq; lia)).
  rewrite forallb_forall in H. specialize (H c ltac:(apply in_seq; lia)).
  now apply Nat.eqb_eq in H.
Qed.

Lemma in_cells_iff k :
  In k cells <-> exists r c, r < 9 /\ c < 9 /\ k = cell_at r c.
Proof.
  rewrite cells_positions, in_flat_map. split.
  - intros (r & Hr & Hk). apply in_map_iff in Hk as (c & <- & Hc).
    apply in_seq in Hr, Hc. exists r, c. repeat split; lia.
  - intros (r & c & Hr & Hc & ->). exists r. split; [apply in_seq; lia|].
    apply in_map, in_seq. lia.
Qed.

(** ** Units and the neighbour table *)

Lemma pos_eqb_eq x y : pos_eqb x y = true <-> x = y.
Proof.
  unfold pos_eqb. rewrite andb_true_iff, !Nat.eqb_eq.
  destruct x, y; simpl. split; [intros [-> ->]; reflexivity|].
  intros [= -> ->]. auto.
Qed.

Lemma in_positions x : In x positions <-> fst x < 9 /\ snd x < 9.
Proof.
  unfold positions. rewrite in_flat_map. split.
  - intros (r & Hr & Hx). apply in_map_iff in Hx as (c & <- & Hc).
    apply in_seq in Hr, Hc. simpl. lia.
  - intros [Hr Hc]. exists (fst x). split; [apply in_seq; lia|].
    apply in_map_iff. exists (snd x). split; [now destruct x|].
    apply in_seq. lia.
Qed.

Lemma is_neighbour_spec k k' :
  is_neighbour k k' = true <->
  exists ks, neighbours !! k = Some ks /\ In k' (elements ks).
Proof.
  unfold is_neighbour. split.
  - destruct (neighbours !! k) as [ks|]; [|discriminate].
    intros H. apply bool_decide_eq_true in H. exists ks. split; [reflexivity|].
    apply list_elem_of_In. now apply elem_of_elements.
  - intros (ks & -> & H). apply bool_decide_eq_true.
    apply elem_of_elements. now apply list_elem_of_In.
Qed.

Lemma units_check_all : forallb unit_check units = true.
Proof. vm_compute. reflexivity. Qed.


Lemma unit_facts u :
  In u units ->
  length u = 9 /\
  (forall x, In x u -> fst x < 9 /\ snd x < 9) /\
  (forall x y, In x u -> In y u -> x <> y ->
               is_neighbour (cell_of x) (cell_of y) = true).
Proof.
  intros Hu. pose proof units_check_all as H.
  rewrite forallb_forall in H. specialize (H u Hu). unfold unit_check in H.
  apply andb_prop in H as [H H3]. apply andb_prop in H as [H1 H2].
  apply Nat.eqb_eq in H1. rewrite forallb_forall in H2, H3.
  split; [exact H1|]. split.
  - intros x Hx. specialize (H2 x Hx).
    apply andb_prop in H2 as [Ha Hb]. apply Nat.ltb_lt in Ha, Hb. auto.
  - intros x y Hx Hy Hne. specialize (H3 x Hx).
    rewrite forallb_forall in H3. specialize (H3 y Hy).
    apply orb_prop in H3 as [H3|H3]; [|exact H3].
    apply pos_eqb_eq in H3. contradiction.
Qed.

Lemma shares_unit_check :
  forallb (fun x =>
    forallb (fun y =>
      implb (shares_unit (fst x) (snd x) (fst y) (snd y)) (common_unit x y))
      positions) positions = true.
Proof. vm_compute. reflexivity. Qed.

Lemma shares_common_unit x y :
  fst x < 9 -> snd x < 9 -> fst y < 9 -> snd y < 9 ->
  shares_unit (fst x) (snd x) (fst y) (snd y) = true ->
  exists u, In u units /\ In x u /\ In y u.
Proof.
  intros Hx1 Hx2 Hy1 Hy2 Hs. pose proof shares_unit_check as H.
  rewrite forallb_forall in H.
  specialize (H x ltac:(apply in_positions; auto)).
  rewrite forallb_forall in H.
  specialize (H y ltac:(apply in_positions; auto)).
  rewrite Hs in H. simpl in H. unfold common_unit in H.
  apply existsb_exists in H as (u & Hu & H).
  apply andb_prop in H as [Ha Hb].
  apply existsb_exists in Ha as (x' & Hx' & Ex).
  apply existsb_exists in Hb as (y' & Hy' & Ey).
  apply pos_eqb_eq in Ex, Ey. subst. eauto.
Qed.

(** ** The elimination pass *)

(** From here on the table and the list of cells are used through the facts
    above. *)
#[global] Opaque neighbours cells.

Lemma on_cells_NoDup d : on_cells d -> NoDup (Dict.keys d).
Proof. intros ->. apply cells_NoDup. Qed.

Lemma on_cells_length d : on_cells d -> length d = 81.
Proof.
  intros H. apply (f_equal (@length _)) in H.
  unfold Dict.keys in H. now rewrite length_map in H.
Qed.

Lemma on_cells_set d k v : on_cells d -> In k cells -> on_cells (Dict.set d k v).
Proof.
  unfold on_cells. intros H Hk. rewrite keys_set; [exact H|]. now rewrite H.
Qed.

Lemma solved_values_spec d ks :
  (forall k, In k ks -> In k (Dict.keys d)) ->
  exists l, solved_values d ks = Ret l /\
    forall s, In s l <->
              exists k, In k ks /\ Dict.get d k = Ret s /\ len s = 1.
Proof.
  induction ks as [|k ks IH]; intros Hks.
  - exists []. split; [reflexivity|]. intros s. split; [contradiction|].
    intros (k & [] & _).
  - destruct IH as (l & Hl & Hspec). { intros; apply Hks; now right. }
    destruct (get_in_keys d k (Hks k (or_introl eq_refl))) as [v Hv].
    simpl. rewrite Hv, Hl. cbn [bind]. eexists. split; [reflexivity|].
    intros s. destruct (Nat.eqb_spec (len v) 1) as [H1|H1].
    + simpl. rewrite Hspec. split.
      * intros [<-|(k' & Hk' & Hg & Hlen)]; [exists k; auto|].
        exists k'. auto.
      * intros (k' & [<-|Hk'] & Hg & Hlen).
        -- left. congruence.
        -- right. exists k'. auto.
    + rewrite Hspec. split.
      * intros (k' & Hk' & Hg & Hlen). exists k'. simpl. auto.
      * intros (k' & [<-|Hk'] & Hg & Hlen); [congruence|].
        exists k'. auto.
Qed.

Section Pass.

Variable join_set : string -> string -> list string -> string.

Lemma eliminate_cell_cases d key :
  on_cells d -> In key cells ->
  exists value, Dict.get d key = Ret value /\
    ((len value = 1 /\ eliminate_cell join_set key d = Ret d) \/
     (len value <> 1 /\ exists solved,
        (forall s, In s solved <-> taken d key s) /\
        eliminate_cell join_set key d
        = Ret (Dict.set d key (join_set key value solved)))).
Proof.
  intros Hd Hkey.
  destruct (get_in_keys d key) as [value Hv]. { now rewrite Hd. }
  exists value. split; [exact Hv|].
  unfold eliminate_cell. rewrite Hv. cbn [bind].
  destruct (Nat.eqb_spec (len value) 1) as [H1|H1]; simpl; [now left|].
  right. split; [exact H1|].
  destruct (neighbours_lookup key Hkey) as [ks Hks]. rewrite Hks.
  cbn [bind].
  destruct (solved_values_spec d (elements ks)) as (solved & Hs & Hspec).
  { intros k Hk. rewrite Hd.
    now destruct (neighbours_closed key ks k Hks Hk). }
  rewrite Hs. cbn [bind]. exists solved. split; [|reflexivity].
  intros s. rewrite Hspec. unfold taken. split.
  - intros (k & Hk & Hg & Hl). exists ks, k. auto.
  - intros (ks' & k & Hks' & Hk & Hg & Hl).
    rewrite Hks in Hks'. injection Hks' as <-. exists k. auto.
Qed.

(** A property of dictionaries that every assignment of the pass keeps is
    kept by the pass, which runs to its end. *)
Lemma eliminate_ind (P : Dict.t string -> Prop) :
  (forall d key value solved,
      on_cells d -> P d -> In key cells ->
      Dict.get d key = Ret value -> len value <> 1 ->
      (forall s, In s solved <-> taken d key s) ->
      P (Dict.set d key (join_set key value solved))) ->
  forall todo d, incl todo cells -> on_cells d -> P d ->
    exists d', eliminate join_set todo d = Ret d' /\ on_cells d' /\ P d'.
Proof.
  intros Hstep. induction todo as [|key todo IH]; intros d Hin Hd HP.
  - exists d. simpl. auto.
  - assert (Hkey : In key cells) by (apply Hin; now left).
    assert (Hin' : incl todo cells) by (intros x Hx; apply Hin; now right).
    destruct (eliminate_cell_cases d key Hd Hkey)
      as (value & Hv & [[H1 He]|(H1 & solved & Hs & He)]);
      simpl; rewrite He; cbn [bind].
    + now apply IH.
    + apply IH; [exact Hin'|now apply on_cells_set|].
      now apply Hstep with (solved := solved).
Qed.

Lemma elimination_loop_ind (P : Dict.t string -> Prop) :
  (forall d key value solved,
      on_cells d -> P d -> In key cells ->
      Dict.get d key = Ret value -> len value <> 1 ->
      (forall s, In s solved <-> taken d key s) ->
      P (Dict.set d key (join_set key value solved))) ->
  forall fuel d d', on_cells d -> P d ->
    elimination_loop join_set fuel d = Ret (Break d') ->
    on_cells d' /\ P d'.
Proof.
  intros Hstep. induction fuel as [|fuel IH]; intros d d' Hd HP Hloop;
    [discriminate|].
  simpl in Hloop.
  destruct (eliminate_ind P Hstep (Dict.keys d) d) as (d1 & He & Hd1 & HP1);
    [rewrite Hd; apply incl_refl|exact Hd|exact HP|].
  rewrite He in Hloop. cbn [bind] in Hloop.
  destruct (count_len 1 d =? count_len 1 d1).
  - injection Hloop as <-. auto.
  - destruct (negb (count_len 0 d1 =? 0)); [discriminate|].
    now apply IH with (d := d1).
Qed.

End Pass.

(** ** The choice of the cell to guess *)

Lemma tuple_ltb_rank a b :
  In (snd a) cells -> In (snd b) cells -> tuple_ltb a b = (rank a <? rank b).
Proof.
  intros Ha Hb. unfold tuple_ltb, rank. rewrite (cells_order _ _ Ha Hb).
  apply index_of_lt in Ha, Hb. rewrite cells_length in Ha, Hb.
  apply eq_true_iff_eq.
  rewrite orb_true_iff, andb_true_iff, !Nat.ltb_lt, Nat.eqb_eq. lia.
Qed.

Lemma fold_min_rank l x :
  (forall t, In t (x :: l) -> In (snd t) cells) ->
  In (fold_left (fun m y => if tuple_ltb y m then y else m) l x) (x :: l) /\
  forall y, In y (x :: l) ->
    rank (fold_left (fun m y => if tuple_ltb y m then y else m) l x) <= rank y.
Proof.
  revert x. induction l as [|y l IH]; intros x Hin.
  - simpl. split; [now left|]. intros y [<-|[]]. lia.
  - cbn [fold_left].
    rewrite (tuple_ltb_rank y x) by (apply Hin; simpl; auto).
    destruct (rank y <? rank x) eqn:E;
      [apply Nat.ltb_lt in E|apply Nat.ltb_ge in E].
    + destruct (IH y) as [H1 H2].
      { intros t Ht. apply Hin. simpl in *. tauto. }
      split; [simpl in *; tauto|].
      intros z [<-|[<-|Hz]].
      * specialize (H2 y (or_introl eq_refl)). lia.
      * apply H2. now left.
      * apply H2. now right.
    + destruct (IH x) as [H1 H2].
      { intros t Ht. apply Hin. simpl in *. tauto. }
      split; [simpl in *; tauto|].
      intros z [<-|[<-|Hz]].
      * apply H2. now left.
      * specialize (H2 x (or_introl eq_refl)). lia.
      * apply H2. now right.
Qed.

Lemma in_unsolved_tuples d t :
  In t (unsolved_tuples d) <->
  exists v, In (snd t, v) d /\ fst t = len v /\ 1 < len v.
Proof.
  unfold unsolved_tuples. rewrite in_map_iff. split.
  - intros ([k v] & <- & H). apply filter_In in H as [H1 H2].
    apply Nat.ltb_lt in H2. exists v. simpl in *. auto.
  - intros (v & H1 & H2 & H3). exists (snd t, v). simpl. split.
    + destruct t; simpl in *; congruence.
    + apply filter_In. split; [exact H1|]. now apply Nat.ltb_lt.
Qed.

Lemma on_cells_In d k v : on_cells d -> In (k, v) d -> In k cells.
Proof.
  intros <- H. change k with (fst (k, v)). now apply in_map.
Qed.

(** The tuple [min] returns: the first in row-major order of the unsolved
    cells with the fewest candidates. *)
Lemma min_unsolved_tuple (d : Dict.t string) :
  on_cells d ->
  (exists k v, In (k, v) d /\ 1 < len v) ->
  exists r c v,
    r < 9 /\ c < 9 /\
    py_min (unsolved_tuples d) = Ret (len v, cell_at r c) /\
    In (cell_at r c, v) d /\ 1 < len v /\
    forall r' c' v',
      r' < 9 -> c' < 9 -> In (cell_at r' c', v') d -> 1 < len v' ->
      len v < len v' \/ (len v = len v' /\ 9 * r + c <= 9 * r' + c').
Proof.
  intros Hd (k0 & v0 & Hin0 & Hlen0).
  assert (Hne : In (len v0, k0) (unsolved_tuples d)).
  { apply in_unsolved_tuples. exists v0. auto. }
  destruct (unsolved_tuples d) as [|x l] eqn:Hl; [contradiction|].
  assert (Hcells : forall t, In t (x :: l) -> In (snd t) cells).
  { intros t Ht. rewrite <- Hl in Ht.
    apply in_unsolved_tuples in Ht as (v & Hv & _).
    now apply (on_cells_In d _ v). }
  destruct (fold_min_rank l x Hcells) as [Hm Hleast].
  set (m := fold_left (fun m y => if tuple_ltb y m then y else m) l x) in *.
  pose proof Hm as Hm'. rewrite <- Hl in Hm'.
  apply in_unsolved_tuples in Hm' as (v & Hv & Hfst & Hlen).
  destruct (proj1 (in_cells_iff (snd m)) (Hcells m Hm))
    as (r & c & Hr & Hc & Hk).
  exists r, c, v. rewrite <- Hk.
  split; [exact Hr|]. split; [exact Hc|]. split.
  { unfold py_min. fold m. now rewrite <- Hfst, <- surjective_pairing. }
  split; [exact Hv|]. split; [exact Hlen|].
  intros r' c' v' Hr' Hc' Hin' Hlen'.
  assert (Hy : In (len v', cell_at r' c') (x :: l)).
  { rewrite <- Hl. apply in_unsolved_tuples. exists v'. auto. }
  specialize (Hleast _ Hy). unfold rank in Hleast. simpl in Hleast.
  rewrite Hk, Hfst in Hleast.
  rewrite !index_of_cell_at in Hleast by assumption. lia.
Qed.


(** ** The guess step *)

Lemma chars_length s : length (Str.chars s) = len s.
Proof.
  unfold Str.chars, len. rewrite length_map.
  induction s as [|a s IH]; simpl; auto.
Qed.

Lemma forallb_solved_false (d : Dict.t string) k v :
  In (k, v) d -> 1 < len v ->
  forallb (fun kv => len (snd kv) =? 1) d = false.
Proof.
  intros Hin Hlen. destruct (forallb _ d) eqn:H; [|reflexivity].
  rewrite forallb_forall in H. specialize (H _ Hin). simpl in H.
  apply Nat.eqb_eq in H. lia.
Qed.

Section Guess.

Variable join_set : string -> string -> list string -> string.

(** Once the loop has stalled on a state with an unsolved cell, the first
    digit tried hands [solve] a dictionary, and [solve] asks it for its
    [shape]. *)
Lemma propagate_stalled_raises (n fuel : nat) (d d' : Dict.t string) :
  on_cells d ->
  elimination_loop join_set fuel d = Ret (Break d') ->
  (exists k v, In (k, v) d' /\ 1 < len v) ->
  propagate join_set (solve join_set (S n)) fuel d = Raise AttributeError.
Proof.
  intros Hd Hloop Hun.
  destruct (elimination_loop_ind join_set (fun _ => True)
              (fun _ _ _ _ _ _ _ _ _ _ => I) fuel d d' Hd I Hloop)
    as [Hd' _].
  unfold propagate. rewrite Hloop. cbn [bind].
  destruct Hun as (k0 & v0 & Hin0 & Hlen0).
  rewrite (forallb_solved_false d' k0 v0 Hin0 Hlen0).
  destruct (min_unsolved_tuple d' Hd') as (r & c & v & _ & _ & Hmin & Hin & Hlen & _);
    [eauto|].
  rewrite Hmin. cbn [bind snd].
  rewrite (get_In d' _ v (on_cells_NoDup d' Hd') Hin). cbn [bind].
  pose proof (chars_length v) as Hc.
  destruct (Str.chars v) as [|digit todo]; [simpl in Hc; lia|].
  reflexivity.
Qed.

End Guess.

(** C2. The guess step does not search: as soon as the loop stalls with an
    unsolved cell left, [propagate] copies the state, fixes the first digit,
    and hands the copy to [solve] instead of [propagate]; [solve] raises
    [AttributeError] on a dictionary, so no branch is explored and no failure
    is reported. *)
Theorem guess_step_raises_instead_of_searching
    (join_set : string -> string -> list string -> string)
    (n fuel : nat) (d d' : Dict.t string) :
  on_cells d ->
  elimination_loop join_set fuel d = Ret (Break d') ->
  (exists k v, In (k, v) d' /\ 1 < len v) ->
  propagate join_set (solve join_set (S n)) fuel d = Raise AttributeError.
Proof. apply propagate_stalled_raises. Qed.

(** ** Propagation under any set order *)

Lemma In_set {V : Type} (d : Dict.t V) k v k' v' :
  In (k', v') (Dict.set d k v) -> (k' = k /\ v' = v) \/ In (k', v') d.
Proof.
  induction d as [|[k0 v0] d IH]; simpl.
  - intros [[= <- <-]|[]]. now left.
  - destruct (String.eqb_spec k k0) as [->|Hne]; simpl.
    + intros [[= <- <-]|H]; auto.
    + intros [H|H]; [auto|]. apply IH in H. tauto.
Qed.

Lemma count_len_none n (d : Dict.t string) :
  (forall k v, In (k, v) d -> len v <> n) -> count_len n d = 0.
Proof.
  unfold count_len. induction d as [|[k v] d IH]; intros H; simpl;
    [reflexivity|].
  destruct (Nat.eqb_spec (len v) n) as [E|E].
  - destruct (H k v); simpl; auto.
  - apply IH. intros k' v' Hin. apply (H k' v'). now right.
Qed.

Lemma solve_array_eq join_set fuel a :
  solve join_set (S fuel) (AArray a) =
  if negb (is_valid_puzzle a) then Ret no_solution
  else
    solution_dict <-
      propagate join_set (solve join_set fuel) fuel (to_dictionary a "0") ;;
    match solution_dict with
    | PFalse | PNone | PDict [] => Ret no_solution
    | PDict d =>
        solution_array <- snd (to_numpy_array (as_values d)) ;;
        valid <- is_valid_solution solution_array ;;
        if negb valid then Ret no_solution else Ret solution_array
    | PArray r =>
        truth <- array_truth r ;;
        if negb truth then Ret no_solution else Raise AttributeError
    end.
Proof. reflexivity. Qed.

Section AnySetOrder.

Variable join_set : string -> string -> list string -> string.

Hypothesis join_set_spec : is_set_join join_set.

Lemma join_set_keeps_all key value solved :
  NoDup (Str.chars value) ->
  (forall c, In c (Str.chars value) -> ~ In c solved) ->
  len (join_set key value solved) = len value.
Proof.
  intros Hnd Hfree. rewrite <- !chars_length.
  destruct (join_set_spec key value solved) as [Hnd' Hin].
  apply Permutation_length, NoDup_Permutation; [exact Hnd'|exact Hnd|].
  intros c. rewrite Hin. split; [tauto|]. intros H. split; auto.
Qed.

Lemma all_open_stalls fuel d :
  on_cells d -> all_open d ->
  exists d', elimination_loop join_set (S fuel) d = Ret (Break d') /\
             on_cells d' /\ all_open d'.
Proof.
  intros Hd Hopen.
  assert (Hstep : forall d key value solved,
             on_cells d -> all_open d -> In key cells ->
             Dict.get d key = Ret value -> len value <> 1 ->
             (forall s, In s solved <-> taken d key s) ->
             all_open (Dict.set d key (join_set key value solved))).
  { clear d Hd Hopen.
    intros d key value solved Hd Hopen Hkey Hget Hlen Hsolved k v Hin.
    apply In_set in Hin as [[-> ->]|Hin]; [|now apply (Hopen k v)].
    destruct (Hopen key value (get_Ret _ _ _ Hget)) as [Hnd H9].
    split; [apply join_set_spec|].
    rewrite join_set_keeps_all; [exact H9|exact Hnd|].
    intros c _ Hc. apply Hsolved in Hc as (ks & k' & _ & _ & Hg & H1).
    apply get_Ret in Hg. apply Hopen in Hg. lia. }
  destruct (eliminate_ind join_set all_open Hstep (Dict.keys d) d)
    as (d' & He & Hd' & Hopen');
    [rewrite Hd; apply incl_refl|exact Hd|exact Hopen|].
  exists d'. split; [|auto].
  cbn [elimination_loop]. rewrite He. cbn [bind].
  rewrite (count_len_none 1 d), (count_len_none 1 d'); [reflexivity| |].
  - intros k v Hin. apply Hopen' in Hin. lia.
  - intros k v Hin. apply Hopen in Hin. lia.
Qed.

Lemma empty_grid_open : all_open (to_dictionary empty_grid "0").
Proof.
  intros k v Hin. rewrite to_dictionary_items in Hin by reflexivity.
  apply in_combine_r, in_map_iff in Hin as (z & <- & Hz).
  apply repeat_spec in Hz as ->. rewrite decode_zero.
  split; [|reflexivity].
  assert (H : nodup string_dec (Str.chars digits) = Str.chars digits)
    by reflexivity.
  rewrite <- H. apply NoDup_nodup.
Qed.

(** C1. [solve] does not always return: on the grid of 81 zeros the loop
    stalls at once, the guess step is entered, and the call ends in an
    [AttributeError], whatever order the sets are iterated in. *)
Theorem solve_raises_on_the_empty_grid (fuel : nat) :
  solve join_set (S (S fuel)) (AArray empty_grid)
  = Raise AttributeError.
Proof.
  rewrite solve_array_eq.
  replace (is_valid_puzzle empty_grid) with true
    by (vm_compute; reflexivity).
  cbn [negb].
  set (d := to_dictionary empty_grid "0").
  assert (Hd : on_cells d) by (apply to_dictionary_keys; reflexivity).
  destruct (all_open_stalls fuel d Hd empty_grid_open)
    as (d' & Hloop & Hd' & Hopen').
  rewrite (propagate_stalled_raises join_set fuel (S fuel) d d' Hd Hloop);
    [reflexivity|].
  pose proof (on_cells_length d' Hd') as Hlen.
  destruct d' as [|[k v] d']; [discriminate|].
  exists k, v. split; [now left|].
  destruct (Hopen' k v (or_introl eq_refl)). lia.
Qed.

End AnySetOrder.

(** ** Encoding a dictionary *)

(** The loop of [to_numpy_array] replaces the values one after the other,
    where they stand. *)
Lemma convert_items_ok (rest : Dict.t pyval) :
  forall (done : Dict.t pyval) (ns : list Z),
    NoDup (Dict.keys (done ++ rest)) ->
    Forall2 (fun kv n => py_int (snd kv) = Ret n) rest ns ->
    convert_items (Dict.keys rest) (done ++ rest)
    = (done ++ combine (Dict.keys rest) (map VInt ns), Ret tt).
Proof.
  induction rest as [|[k v] rest IH]; intros done ns Hnd Hall.
  - inversion Hall; subst. reflexivity.
  - inversion Hall as [|? n ? ns' Hv Hrest]; subst. simpl in Hv.
    assert (Hk : ~ In k (Dict.keys done)).
    { unfold Dict.keys in *. rewrite map_app in Hnd. simpl in Hnd.
      apply NoDup_remove_2 in Hnd. rewrite in_app_iff in Hnd. tauto. }
    cbn [Dict.keys map fst convert_items].
    rewrite get_middle by exact Hk. cbn [bind]. rewrite Hv.
    rewrite set_middle by exact Hk.
    change (done ++ (k, VInt n) :: rest) with (done ++ [(k, VInt n)] ++ rest).
    rewrite app_assoc. fold (Dict.keys rest).
    rewrite (IH (done ++ [(k, VInt n)]) ns').
    + rewrite <- app_assoc. reflexivity.
    + unfold Dict.keys in *. rewrite <- app_assoc.
      rewrite !map_app in *. exact Hnd.
    + exact Hrest.
Qed.

(** When the loop runs to its end, every value could be converted. *)
Lemma convert_items_inv (rest : Dict.t pyval) :
  forall (done d' : Dict.t pyval),
    NoDup (Dict.keys (done ++ rest)) ->
    convert_items (Dict.keys rest) (done ++ rest) = (d', Ret tt) ->
    exists ns, Forall2 (fun kv n => py_int (snd kv) = Ret n) rest ns.
Proof.
  induction rest as [|[k v] rest IH]; intros done d' Hnd Hconv.
  - exists []. constructor.
  - assert (Hk : ~ In k (Dict.keys done)).
    { unfold Dict.keys in *. rewrite map_app in Hnd. simpl in Hnd.
      apply NoDup_remove_2 in Hnd. rewrite in_app_iff in Hnd. tauto. }
    cbn [Dict.keys map fst convert_items] in Hconv.
    rewrite get_middle in Hconv by exact Hk. cbn [bind] in Hconv.
    destruct (py_int v) as [n| |] eqn:Hv; try discriminate.
    rewrite set_middle in Hconv by exact Hk.
    change (done ++ (k, VInt n) :: rest)
      with (done ++ [(k, VInt n)] ++ rest) in Hconv.
    rewrite app_assoc in Hconv. fold (Dict.keys rest) in Hconv.
    destruct (IH (done ++ [(k, VInt n)]) d') as [ns Hns].
    + unfold Dict.keys in *. rewrite <- app_assoc.
      rewrite !map_app in *. exact Hnd.
    + exact Hconv.
    + exists (n :: ns). constructor; [exact Hv|exact Hns].
Qed.

(** After the loop every value of the dictionary is an integer. *)
Lemma convert_items_ints (d d' : Dict.t pyval) :
  NoDup (Dict.keys d) ->
  convert_items (Dict.keys d) d = (d', Ret tt) ->
  Forall (fun v => exists n, v = VInt n) (Dict.values d').
Proof.
  intros Hnd Hconv.
  destruct (convert_items_inv d [] d' Hnd Hconv) as [ns Hns].
  pose proof (convert_items_ok d [] ns Hnd Hns) as Hok.
  cbn [app] in Hok. rewrite Hok in Hconv. injection Hconv as <-.
  unfold Dict.values. rewrite map_snd_combine.
  - apply Forall_forall. intros v Hv.
    apply in_map_iff in Hv as (n & <- & _). eauto.
  - apply Forall2_length in Hns. unfold Dict.keys.
    now rewrite !length_map, Hns.
Qed.

Lemma to_numpy_array_ok (d : Dict.t string) (ns : list Z) :
  NoDup (Dict.keys d) -> length d = 81 ->
  Forall2 (fun kv n => Str.int (snd kv) = Ret n) d ns ->
  to_numpy_array (as_values d)
  = (combine (Dict.keys d) (map VInt ns), Ret (grid ns)).
Proof.
  intros Hnd Hlen Hall.
  assert (Hkeys : Dict.keys (as_values d) = Dict.keys d).
  { unfold Dict.keys, as_values. rewrite map_map. reflexivity. }
  assert (Hns : length ns = 81).
  { apply Forall2_length in Hall. lia. }
  pose proof (convert_items_ok (as_values d) [] ns) as Hconv.
  cbn [app] in Hconv. unfold to_numpy_array. rewrite Hconv.
  - rewrite Hkeys. cbn [bind]. f_equal.
    unfold Dict.values. rewrite map_snd_combine.
    + rewrite map_map. cbn [entry_of]. rewrite map_id.
      unfold Np.array_reshape. rewrite Hns. reflexivity.
    + unfold Dict.keys. now rewrite !length_map, Hns.
  - now rewrite Hkeys.
  - unfold as_values. clear -Hall.
    induction Hall; simpl; constructor; auto.
Qed.

(** C10. [to_numpy_array] works on the dictionary it is given: when it
    returns, every value of the caller's dictionary is the integer of the
    string that was there, the array is built from those integers, and the
    dictionary is no longer what it was. *)
Theorem to_numpy_array_rewrites_its_argument
    (d : Dict.t string) (ns : list Z) :
  NoDup (Dict.keys d) -> length d = 81 ->
  Forall2 (fun kv n => Str.int (snd kv) = Ret n) d ns ->
  to_numpy_array (as_values d)
  = (combine (Dict.keys d) (map VInt ns), Ret (grid ns)) /\
  fst (to_numpy_array (as_values d)) <> as_values d.
Proof.
  intros Hnd Hlen Hall.
  rewrite (to_numpy_array_ok d ns Hnd Hlen Hall). split; [reflexivity|].
  destruct Hall as [|[k v] n d ns _ _]; [discriminate|].
  simpl. discriminate.
Qed.

(** ** Solved grids *)

Lemma each_digit_once_perm l :
  length l = 9 -> each_digit_once l = true -> Permutation one_to_nine l.
Proof.
  intros Hlen H. unfold each_digit_once in H. rewrite forallb_forall in H.
  apply NoDup_Permutation_bis.
  - assert (E : nodup Z.eq_dec one_to_nine = one_to_nine) by reflexivity.
    rewrite <- E. apply NoDup_nodup.
  - rewrite Hlen. reflexivity.
  - intros d Hd. specialize (H d Hd). apply Nat.eqb_eq in H.
    apply (count_occ_In Z.eq_dec). lia.
Qed.


Lemma zsum_perm l l' : Permutation l l' -> zsum l = zsum l'.
Proof. induction 1; simpl; lia. Qed.

Lemma grid_rows (l : list Z) :
  length l = 81 -> l = concat (map (row_entries l) (seq 0 9)).
Proof.
  intros Hlen.
  do 81 (destruct l as [|? l]; [discriminate|]).
  destruct l; [reflexivity|discriminate].
Qed.

Lemma zsum_concat_const {A : Type} (f : A -> list Z) (c : Z) (l : list A) :
  (forall x, In x l -> zsum (f x) = c) ->
  zsum (concat (map f l)) = (c * Z.of_nat (length l))%Z.
Proof.
  induction l as [|x l IH]; intros H.
  - simpl. lia.
  - cbn [map concat length]. rewrite zsum_app, IH, (H x), Nat2Z.inj_succ.
    + lia.
    + now left.
    + intros y Hy. apply H. now right.
Qed.

Lemma in_units_row r : r < 9 -> In (row_unit r) units.
Proof.
  intros Hr. unfold units. apply in_or_app. left.
  apply in_map, in_seq. lia.
Qed.

Lemma solution_row a r :
  shape a = [9; 9] -> is_sudoku_solution a = true -> r < 9 ->
  Permutation one_to_nine (row_entries (data a) r).
Proof.
  intros Hs Hsol Hr. unfold is_sudoku_solution in Hsol.
  rewrite forallb_forall in Hsol. specialize (Hsol _ (in_units_row r Hr)).
  unfold row_unit in Hsol. rewrite map_map in Hsol. cbn [fst snd] in Hsol.
  apply each_digit_once_perm.
  - unfold row_entries. now rewrite length_map, length_seq.
  - unfold row_entries. erewrite map_ext; [exact Hsol|].
    intros c. cbn beta. now rewrite get2_grid.
Qed.

Lemma solution_facts a :
  shape a = [9; 9] -> wf_array a -> is_sudoku_solution a = true ->
  Forall (fun z => (1 <= z <= 9)%Z) (data a) /\ zsum (data a) = 405%Z.
Proof.
  intros Hs Hwf Hsol. pose proof (wf_grid_length a Hs Hwf) as Hlen.
  rewrite (grid_rows (data a) Hlen) at 1 2. split.
  - apply Forall_forall. intros z Hz.
    apply in_concat in Hz as (row & Hrow & Hz).
    apply in_map_iff in Hrow as (r & <- & Hr). apply in_seq in Hr.
    apply (Permutation_in (l' := one_to_nine)) in Hz.
    + simpl in Hz. lia.
    + symmetry. apply solution_row; auto. lia.
  - rewrite (zsum_concat_const _ 45%Z); [reflexivity|].
    intros r Hr. apply in_seq in Hr.
    rewrite <- (zsum_perm _ _ (solution_row a r Hs Hsol ltac:(lia))).
    reflexivity.
Qed.

(** ** Propagation on a filled grid *)

Section Filled.

Variable join_set : string -> string -> list string -> string.

Lemma eliminate_solved todo d :
  on_cells d -> all_solved d -> incl todo cells ->
  eliminate join_set todo d = Ret d.
Proof.
  intros Hd Hsolved. induction todo as [|key todo IH]; intros Hin;
    [reflexivity|].
  cbn [eliminate].
  destruct (eliminate_cell_cases join_set d key Hd)
    as (value & Hv & [[H1 He]|(H1 & _)]).
  - apply Hin. now left.
  - rewrite He. cbn [bind]. apply IH. intros x Hx. apply Hin. now right.
  - apply get_Ret, Hsolved in Hv. contradiction.
Qed.

Lemma loop_solved fuel d :
  on_cells d -> all_solved d ->
  elimination_loop join_set (S fuel) d = Ret (Break d).
Proof.
  intros Hd Hsolved. cbn [elimination_loop].
  rewrite eliminate_solved; [|exact Hd|exact Hsolved|].
  - cbn [bind]. now rewrite Nat.eqb_refl.
  - rewrite Hd. apply incl_refl.
Qed.

Lemma propagate_solved self_solve fuel d :
  on_cells d -> all_solved d ->
  propagate join_set self_solve (S fuel) d = Ret (PDict d).
Proof.
  intros Hd Hsolved. unfold propagate.
  rewrite loop_solved by assumption. cbn [bind].
  replace (forallb _ d) with true; [reflexivity|].
  symmetry. apply forallb_forall. intros [k v] Hin. simpl.
  apply Nat.eqb_eq. now apply (Hsolved k v).
Qed.

End Filled.

Lemma filled_solved a :
  length (data a) = 81 -> Forall (fun z => (1 <= z <= 9)%Z) (data a) ->
  all_solved (to_dictionary a "0").
Proof.
  intros Hlen Hall k v Hin. rewrite to_dictionary_items in Hin by exact Hlen.
  apply in_combine_r, in_map_iff in Hin as (z & <- & Hz).
  rewrite Forall_forall in Hall. specialize (Hall z Hz).
  destruct (str_digit z Hall) as (H1 & -> & _). exact H1.
Qed.

Lemma filled_ints (ks : list string) (zs : list Z) :
  length ks = length zs -> Forall (fun z => (1 <= z <= 9)%Z) zs ->
  Forall2 (fun kv n => Str.int (snd kv) = Ret n)
          (combine ks (map (decode "0") zs)) zs.
Proof.
  revert zs. induction ks as [|k ks IH]; intros [|z zs] Hlen Hall;
    simpl in *; try discriminate; constructor.
  - inversion Hall; subst. simpl.
    destruct (str_digit z) as (_ & -> & H); auto.
  - inversion Hall; subst. apply IH; auto.
Qed.

(** C8. A grid that is already a solution (81 digits, each row, column and
    box holding 1 to 9 once) comes back from [solve] as it went in; the pass
    over the cells changes nothing, and the loop stops after that one pass. *)
Theorem solve_returns_a_solution_unchanged
    (join_set : string -> string -> list string -> string)
    (fuel : nat) (a : ndarray) :
  shape a = [9; 9] -> wf_array a -> is_sudoku_solution a = true ->
  solve join_set (S (S fuel)) (AArray a) = Ret a /\
  eliminate join_set (Dict.keys (to_dictionary a "0")) (to_dictionary a "0")
  = Ret (to_dictionary a "0") /\
  elimination_loop join_set (S fuel) (to_dictionary a "0")
  = Ret (Break (to_dictionary a "0")).
Proof.
  intros Hs Hwf Hsol.
  pose proof (wf_grid_length a Hs Hwf) as Hlen.
  destruct (solution_facts a Hs Hwf Hsol) as [Hrange Hsum].
  pose proof (to_dictionary_keys a "0" Hlen) as Hd.
  pose proof (filled_solved a Hlen Hrange) as Hsolved.
  split; [|split].
  - rewrite solve_array_eq.
    replace (is_valid_puzzle a) with true.
    2:{ symmetry. apply is_valid_puzzle_iff; [exact Hwf|]. split; [exact Hs|].
        eapply Forall_impl; [|exact Hrange]. simpl. lia. }
    cbn [negb]. rewrite propagate_solved by assumption. cbn [bind].
    assert (Hints : Forall2 (fun kv n => Str.int (snd kv) = Ret n)
                            (to_dictionary a "0") (data a)).
    { rewrite to_dictionary_items by exact Hlen.
      apply filled_ints; [|exact Hrange]. now rewrite Hlen. }
    pose proof (to_numpy_array_ok _ _ (on_cells_NoDup _ Hd)
                  (on_cells_length _ Hd) Hints) as Harr.
    pose proof (on_cells_length _ Hd) as Hdlen.
    destruct (to_dictionary a "0") as [|kv d]; [discriminate|].
    rewrite Harr. cbn [snd bind].
    rewrite (is_valid_solution_wrap (grid (data a)) 9 [9] eq_refl Hlen).
    change (data (grid (data a))) with (data a).
    cbn [bind]. rewrite Hsum.
    replace (wrap64 405 =? 9 * 45)%Z with true by reflexivity.
    cbn [negb]. f_equal. clear -Hs. destruct a as [sh dt].
    cbn [shape] in Hs. unfold grid. cbn [data]. now rewrite Hs.
  - apply eliminate_solved; [exact Hd|exact Hsolved|].
    rewrite Hd. apply incl_refl.
  - now apply loop_solved.
Qed.

(** ** What propagation keeps *)

Lemma chars_single v : len v = 1 -> Str.chars v = [v].
Proof. destruct v as [|a [|b v]]; simpl; try discriminate. reflexivity. Qed.


Lemma taken_neighbour d key k s :
  is_neighbour key k = true -> Dict.get d k = Ret s -> len s = 1 ->
  taken d key s.
Proof.
  intros H Hg Hl. apply is_neighbour_spec in H as (ks & Hks & Hin).
  exists ks, k. auto.
Qed.

Section Soundness.

Variable join_set : string -> string -> list string -> string.

Hypothesis join_set_spec : is_set_join join_set.




End Soundness.

(** ** Clues that agree *)

Lemma get_index {V : Type} (d : Dict.t V) k (dflt : V) :
  In k (Dict.keys d) ->
  Dict.get d k = Ret (nth (index_of k (Dict.keys d)) (Dict.values d) dflt).
Proof.
  induction d as [|[k' v'] d IH]; simpl; [contradiction|].
  destruct (String.eqb_spec k k') as [->|Hne]; [reflexivity|].
  intros [H|H]; [congruence|]. now apply IH.
Qed.

Lemma get_at (d : Dict.t string) r c dflt :
  on_cells d -> r < 9 -> c < 9 ->
  Dict.get d (cell_at r c) = Ret (nth (r * 9 + c) (Dict.values d) dflt).
Proof.
  intros Hd Hr Hc. rewrite (get_index d _ dflt).
  - rewrite Hd, index_of_cell_at by assumption. do 2 f_equal. lia.
  - rewrite Hd. apply in_cells_iff. eauto.
Qed.



Lemma Forall2_at {A B : Type} (R : A -> B -> Prop) l l' p da db :
  Forall2 R l l' -> p < length l -> R (nth p l da) (nth p l' db).
Proof.
  intros H. revert p. induction H as [|x y l l' Hxy _ IH]; intros p Hp;
    simpl in Hp; [lia|].
  destruct p as [|p]; simpl; [exact Hxy|]. apply IH. lia.
Qed.

(** A solved cell that holds digits only is the string of one digit. *)
Lemma solved_digit v :
  len v = 1 ->
  (forall c, In c (Str.chars v) -> In c (Str.chars digits)) ->
  exists z, (1 <= z <= 9)%Z /\ v = Str.str z /\ Str.int v = Ret z.
Proof.
  intros H1 Hdig. rewrite (chars_single v H1) in Hdig.
  specialize (Hdig v (or_introl eq_refl)). simpl in Hdig.
  destruct Hdig as [<-|[<-|[<-|[<-|[<-|[<-|[<-|[<-|[<-|[]]]]]]]]]];
    [exists 1%Z|exists 2%Z|exists 3%Z|exists 4%Z|exists 5%Z|exists 6%Z
    |exists 7%Z|exists 8%Z|exists 9%Z];
    (split; [lia|split; reflexivity]).
Qed.

Lemma str_injective z z' :
  (1 <= z <= 9)%Z -> (1 <= z' <= 9)%Z -> Str.str z = Str.str z' -> z = z'.
Proof.
  intros Hz Hz' E.
  destruct (str_digit z Hz) as (_ & _ & H).
  destruct (str_digit z' Hz') as (_ & _ & H').
  rewrite E in H. congruence.
Qed.

Lemma decode_digits z :
  (0 <= z <= 9)%Z ->
  forall c, In c (Str.chars (decode "0" z)) -> In c (Str.chars digits).
Proof.
  intros Hz.
  assert (H : In z [0; 1; 2; 3; 4; 5; 6; 7; 8; 9]%Z) by (simpl; lia).
  simpl in H.
  repeat (destruct H as [<-|H]; [vm_compute; tauto|]). contradiction.
Qed.


Lemma decoded_at a r c :
  shape a = [9; 9] -> wf_array a -> r < 9 -> c < 9 ->
  Dict.get (to_dictionary a "0") (cell_at r c)
  = Ret (decode "0" (Np.get2 a r c)).
Proof.
  intros Hs Hwf Hr Hc. pose proof (wf_grid_length a Hs Hwf) as Hlen.
  rewrite (get_at _ r c (decode "0" 0%Z)); try assumption.
  - rewrite to_dictionary_values by exact Hlen.
    rewrite map_nth. now rewrite get2_grid.
  - now apply to_dictionary_keys.
Qed.

Lemma get2_range a r c :
  shape a = [9; 9] -> wf_array a ->
  Forall (fun z => (0 <= z <= 9)%Z) (data a) -> r < 9 -> c < 9 ->
  (0 <= Np.get2 a r c <= 9)%Z.
Proof.
  intros Hs Hwf Hall Hr Hc. pose proof (wf_grid_length a Hs Hwf) as Hlen.
  rewrite get2_grid by exact Hs. rewrite Forall_forall in Hall.
  apply Hall, nth_In. lia.
Qed.


(** ** From a solved dictionary to a solved grid *)

Lemma solved_ints (d : Dict.t string) :
  only_digits d -> all_solved d ->
  exists ns, Forall2 (fun kv n => Str.int (snd kv) = Ret n) d ns.
Proof.
  induction d as [|[k v] d IH]; intros Hdig Hsol.
  - exists []. constructor.
  - destruct IH as [ns Hns].
    + intros k' v' Hin. apply (Hdig k' v'). now right.
    + intros k' v' Hin. apply (Hsol k' v'). now right.
    + destruct (solved_digit v) as (z & _ & _ & Hz).
      * apply (Hsol k v). now left.
      * apply (Hdig k v). now left.
      * exists (z :: ns). constructor; [exact Hz|exact Hns].
Qed.

Lemma entry_at (d : Dict.t string) (ns : list Z) (x : nat * nat) :
  on_cells d -> only_digits d -> all_solved d ->
  Forall2 (fun kv n => Str.int (snd kv) = Ret n) d ns ->
  fst x < 9 -> snd x < 9 ->
  exists v z,
    Dict.get d (cell_of x) = Ret v /\ len v = 1 /\
    (1 <= z <= 9)%Z /\ v = Str.str z /\
    Np.get2 (grid ns) (fst x) (snd x) = z.
Proof.
  intros Hd Hdig Hsol Hall Hr Hc. destruct x as [r c]. simpl in Hr, Hc.
  unfold cell_of. cbn [fst snd].
  pose proof (get_at d r c "" Hd Hr Hc) as Hget.
  pose proof (on_cells_length d Hd) as Hlen.
  pose proof (Forall2_at _ d ns (r * 9 + c) ("", "") 0%Z Hall ltac:(lia)) as Hp.
  cbn beta in Hp.
  assert (Hv : nth (r * 9 + c) (Dict.values d) ""
               = snd (nth (r * 9 + c) d ("", ""))).
  { unfold Dict.values. apply (map_nth snd d ("", "")). }
  rewrite Hv in Hget. clear Hv.
  set (v := snd (nth (r * 9 + c) d ("", ""))) in *.
  pose proof (get_Ret _ _ _ Hget) as Hin.
  destruct (solved_digit v (Hsol _ _ Hin) (Hdig _ _ Hin)) as (z & Hz & Ev & Hint).
  exists v, z. split; [exact Hget|]. split; [exact (Hsol _ _ Hin)|].
  split; [exact Hz|]. split; [exact Ev|].
  rewrite get2_grid by reflexivity. cbn [data grid]. congruence.
Qed.


Lemma guess_not_dict self_solve (d : Dict.t string) k todo d' :
  guess self_solve d k todo <> Ret (PDict d').
Proof.
  induction todo as [|digit todo IH]; simpl; [discriminate|].
  destruct (self_solve _) as [r| |]; cbn [bind]; try discriminate.
  destruct (array_truth r) as [[|]| |]; cbn [bind]; try discriminate.
  exact IH.
Qed.

Lemma propagate_dict join_set self_solve fuel d d' :
  propagate join_set self_solve fuel d = Ret (PDict d') ->
  elimination_loop join_set fuel d = Ret (Break d') /\ all_solved d'.
Proof.
  unfold propagate.
  destruct (elimination_loop join_set fuel d) as [[d1|]| |]; cbn [bind];
    try discriminate.
  destruct (forallb _ d1) eqn:Hall.
  - intros [= ->]. split; [reflexivity|]. intros k v Hin.
    rewrite forallb_forall in Hall. specialize (Hall _ Hin).
    now apply Nat.eqb_eq in Hall.
  - destruct (py_min _) as [m| |]; cbn [bind]; try discriminate.
    destruct (Dict.get d1 (snd m)) as [value| |]; cbn [bind]; try discriminate.
    intros H. now apply guess_not_dict in H.
Qed.

Section Solutions.

Variable join_set : string -> string -> list string -> string.

Hypothesis join_set_spec : is_set_join join_set.


End Solutions.

(** ** Termination of the loop *)

Lemma count_len_le n (d : Dict.t string) : count_len n d <= length d.
Proof. unfold count_len. apply filter_length_le. Qed.

Lemma count_solved_set (d : Dict.t string) k v v' :
  Dict.get d k = Ret v -> len v <> 1 ->
  count_len 1 d <= count_len 1 (Dict.set d k v').
Proof.
  unfold count_len. induction d as [|[k0 v0] d IH]; simpl; [discriminate|].
  destruct (String.eqb_spec k k0) as [->|Hne].
  - intros [= ->] Hlen. simpl.
    destruct (Nat.eqb_spec (len v) 1); [contradiction|].
    destruct (len v' =? 1); simpl; lia.
  - intros Hg Hlen. simpl. specialize (IH Hg Hlen).
    destruct (len v0 =? 1); simpl; lia.
Qed.

Section Termination.

Variable join_set : string -> string -> list string -> string.

(** A pass never loses a solved cell. *)
Lemma eliminate_grows d :
  on_cells d ->
  exists d', eliminate join_set (Dict.keys d) d = Ret d' /\
             on_cells d' /\ count_len 1 d <= count_len 1 d'.
Proof.
  intros Hd.
  apply (eliminate_ind join_set (fun d' => count_len 1 d <= count_len 1 d'));
    [|rewrite Hd; apply incl_refl|exact Hd|lia].
  intros d0 key value solved _ Hle _ Hget Hlen _.
  pose proof (count_solved_set d0 key value (join_set key value solved)
                Hget Hlen). lia.
Qed.

(** The loop runs at most once more than there are unsolved cells. *)
Lemma elimination_loop_total fuel d :
  on_cells d -> 81 - count_len 1 d < fuel ->
  exists r, elimination_loop join_set fuel d = Ret r.
Proof.
  revert d. induction fuel as [|fuel IH]; intros d Hd Hfuel; [lia|].
  destruct (eliminate_grows d Hd) as (d' & He & Hd' & Hle).
  cbn [elimination_loop]. rewrite He. cbn [bind].
  destruct (Nat.eqb_spec (count_len 1 d) (count_len 1 d')) as [E|E];
    [eauto|].
  destruct (negb (count_len 0 d' =? 0)); [eauto|].
  apply IH; [exact Hd'|].
  pose proof (count_len_le 1 d') as Hmax.
  rewrite (on_cells_length d' Hd') in Hmax. lia.
Qed.

Lemma guess_total n (d : Dict.t string) k todo :
  guess (solve join_set (S n)) d k todo <> OutOfFuel.
Proof. destruct todo; simpl; discriminate. Qed.

Lemma propagate_total n d :
  on_cells d -> 81 <= n ->
  propagate join_set (solve join_set (S n)) (S n) d <> OutOfFuel.
Proof.
  intros Hd Hn. unfold propagate.
  destruct (elimination_loop_total (S n) d Hd) as [r Hr]; [lia|].
  rewrite Hr. cbn [bind]. destruct r as [d'|]; [|discriminate].
  destruct (forallb _ d'); [discriminate|].
  destruct (py_min _) as [m| |] eqn:Hm; cbn [bind]; try discriminate.
  - pose proof (get_not_OutOfFuel d' (snd m)) as Hg.
    destruct (Dict.get d' (snd m)); cbn [bind];
      [apply guess_total|discriminate|congruence].
  - unfold py_min in Hm. destruct (unsolved_tuples d'); discriminate.
Qed.

Lemma convert_items_total todo (dictionary : Dict.t pyval) :
  snd (convert_items todo dictionary) <> OutOfFuel.
Proof.
  revert dictionary. induction todo as [|key todo IH]; intros dictionary;
    simpl; [discriminate|].
  destruct (Dict.get dictionary key) as [v| |] eqn:Hget; cbn [bind].
  - destruct (py_int v) as [n| |] eqn:Hint.
    + apply IH.
    + simpl. discriminate.
    + destruct v as [s|z]; simpl in Hint; [|discriminate].
      unfold Str.int in Hint.
      destruct (NilZero.int_of_string s); discriminate.
  - simpl. discriminate.
  - exfalso. exact (get_not_OutOfFuel _ _ Hget).
Qed.

(** With 83 units of fuel or more, the model of [solve] never stops for
    lack of fuel on an array: [solve] returns or raises. *)
Lemma solve_total fuel a :
  wf_array a -> 83 <= fuel -> solve join_set fuel (AArray a) <> OutOfFuel.
Proof.
  intros Hwf Hfuel.
  destruct fuel as [|[|n]]; [lia|lia|].
  rewrite solve_array_eq.
  destruct (is_valid_puzzle a) eqn:Hvalid; cbn [negb]; [|discriminate].
  apply (is_valid_puzzle_iff a Hwf) in Hvalid as [Hs _].
  pose proof (to_dictionary_keys a "0" (wf_grid_length a Hs Hwf)) as Hd.
  pose proof (propagate_total n _ Hd ltac:(lia)) as Hp.
  destruct (propagate _ _ _ _) as [[| |d|r]| |]; cbn [bind];
    try discriminate; [| |congruence].
  - destruct d as [|kv d]; [discriminate|].
    unfold to_numpy_array.
    pose proof (convert_items_total (Dict.keys (as_values (kv :: d)))
                  (as_values (kv :: d))) as Hc.
    destruct (convert_items _ _) as [d' [[]| |]]; cbn [snd bind] in *;
      [|discriminate|congruence].
    unfold Np.array_reshape. destruct (_ =? _); cbn [bind]; [|discriminate].
    unfold is_valid_solution, Np.sum_axis0. cbn [shape bind].
    destruct (negb _); discriminate.
  - unfold array_truth. destruct (data r) as [|x [|y l]]; cbn [bind];
      try discriminate.
    destruct (negb (negb _)); discriminate.
Qed.

End Termination.

(** ** A set order to run the model with *)

Lemma chars_len s c : In c (Str.chars s) -> len c = 1.
Proof.
  unfold Str.chars. intros H. apply in_map_iff in H as (a & <- & _).
  reflexivity.
Qed.

Lemma chars_concat l :
  Forall (fun s => len s = 1) l -> Str.chars (String.concat "" l) = l.
Proof.
  induction 1 as [|s l Hs Hl IH]; [reflexivity|].
  destruct s as [|a [|b s]]; simpl in Hs; try discriminate.
  destruct l as [|t l]; [reflexivity|].
  change (String.concat "" (String a "" :: t :: l))
    with (String a (String.concat "" (t :: l))).
  unfold Str.chars in *. cbn [list_ascii_of_string map]. now rewrite IH.
Qed.

Lemma join_in_order_spec : is_set_join join_in_order.
Proof.
  intros key value solved. unfold join_in_order. rewrite chars_concat.
  - split; [apply NoDup_nodup|]. intros c.
    rewrite nodup_In, filter_In, negb_true_iff.
    split; intros [H1 H2]; (split; [exact H1|]).
    + intros Hin. apply not_true_iff_false in H2. apply H2.
      apply existsb_exists. exists c. split; [exact Hin|].
      apply String.eqb_refl.
    + apply not_true_iff_false. intros H. apply H2.
      apply existsb_exists in H as (s & Hs & E).
      apply String.eqb_eq in E. now subst.
  - apply Forall_forall. intros c Hc.
    apply nodup_In, filter_In in Hc as [Hc _]. now apply chars_len in Hc.
Qed.

(** ** The contradiction that is not reported *)

Lemma chars_nil s : Str.chars s = [] -> s = "".
Proof. destruct s; [reflexivity|discriminate]. Qed.

Lemma blocked_cell_taken :
  forallb (fun c =>
    existsb (fun k =>
      is_neighbour "11" k &&
      match Dict.get (to_dictionary example_blocked "0") k with
      | Ret s => String.eqb s c
      | _ => false
      end) cells)
    (Str.chars digits) = true.
Proof. vm_compute. reflexivity. Qed.

Section Blocked.

Variable join_set : string -> string -> list string -> string.

Hypothesis join_set_spec : is_set_join join_set.

Lemma blocked_pass :
  eliminate join_set (Dict.keys (to_dictionary example_blocked "0"))
            (to_dictionary example_blocked "0")
  = Ret (Dict.set (to_dictionary example_blocked "0") "11" "").
Proof.
  remember (to_dictionary example_blocked "0") as d eqn:Ed.
  assert (Hd : on_cells d)
    by (rewrite Ed; apply to_dictionary_keys; reflexivity).
  assert (Hkeys : Dict.keys d = "11" :: tl (Dict.keys d))
    by (rewrite Ed; vm_compute; reflexivity).
  assert (Hget : Dict.get d "11" = Ret digits)
    by (rewrite Ed; vm_compute; reflexivity).
  rewrite Hkeys. cbn [eliminate].
  destruct (eliminate_cell_cases join_set d "11" Hd)
    as (value & Hv & [[H1 _]|(_ & solved & Hs & He)]).
  - apply in_cells_iff. exists 0, 0. split; [lia|]. split; [lia|reflexivity].
  - rewrite Hget in Hv. injection Hv as <-. discriminate.
  - rewrite Hget in Hv. injection Hv as <-. rewrite He. cbn [bind].
    assert (Hnew : join_set "11" digits solved = "").
    { apply chars_nil.
      destruct (Str.chars (join_set "11" digits solved)) as [|c l] eqn:E;
        [reflexivity|exfalso].
      destruct (join_set_spec "11" digits solved) as [_ Hin].
      specialize (Hin c). rewrite E in Hin.
      destruct (proj1 Hin (or_introl eq_refl)) as [Hc Hfree].
      apply Hfree, Hs.
      pose proof blocked_cell_taken as Hall.
      rewrite forallb_forall in Hall. specialize (Hall c Hc).
      apply existsb_exists in Hall as (k & _ & Hk).
      apply andb_prop in Hk as [Hn Hg]. rewrite <- Ed in Hg.
      destruct (Dict.get d k) as [s| |] eqn:Hgk; try discriminate.
      apply String.eqb_eq in Hg. subst s.
      apply (taken_neighbour d "11" k c Hn Hgk).
      now apply chars_len in Hc. }
    rewrite Hnew, Ed. vm_compute. reflexivity.
Qed.

(** C3. A cell can lose its last candidate without [propagate] reporting
    failure: in [example_blocked] the digits 1 to 9 are all taken around
    the one empty cell; the pass empties it, no cell gets solved, so the
    loop is left by [break] before the test for empty cells, and [min] of
    no unsolved cell at all raises [ValueError]. *)
Theorem emptied_cell_is_not_reported
    (self_solve : pyarg -> result ndarray) (fuel : nat) :
  exists d',
    eliminate join_set (Dict.keys (to_dictionary example_blocked "0"))
              (to_dictionary example_blocked "0") = Ret d' /\
    Dict.get d' "11" = Ret "" /\
    elimination_loop join_set (S fuel) (to_dictionary example_blocked "0")
    = Ret (Break d') /\
    propagate join_set self_solve (S fuel)
              (to_dictionary example_blocked "0") = Raise ValueError.
Proof.
  exists (Dict.set (to_dictionary example_blocked "0") "11" "").
  split; [exact blocked_pass|]. split; [apply get_set_eq|].
  assert (Hloop :
    elimination_loop join_set (S fuel) (to_dictionary example_blocked "0")
    = Ret (Break (Dict.set (to_dictionary example_blocked "0") "11" ""))).
  { cbn [elimination_loop]. rewrite blocked_pass. cbn [bind].
    vm_compute. reflexivity. }
  split; [exact Hloop|].
  unfold propagate. rewrite Hloop. cbn [bind]. vm_compute. reflexivity.
Qed.

End Blocked.


(** * Further properties of the code *)

(** ** The validator and the codec *)

(** X1. [is_valid_puzzle] accepts exactly the 9x9 arrays whose entries all
    lie between 0 and 9. *)
Theorem is_valid_puzzle_accepts_exactly_digit_grids (a : ndarray) :
  wf_array a ->
  is_valid_puzzle a = true <->
  shape a = [9; 9] /\ Forall (fun z => (0 <= z <= 9)%Z) (data a).
Proof. apply is_valid_puzzle_iff. Qed.

Lemma str_digit_string z : (1 <= z <= 9)%Z -> Str.str z = digit_string z.
Proof.
  intros Hz. apply digit_cases in Hz. simpl in Hz.
  repeat (destruct Hz as [<-|Hz]; [reflexivity|]). contradiction.
Qed.

(** X2. [to_dictionary] lists the 81 cells in row-major order; the cell of an
    empty entry gets the nine digits, the cell of a clue the one-character
    string of its digit. *)
Theorem to_dictionary_decodes_cell_by_cell (a : ndarray) (r c : nat) :
  shape a = [9; 9] -> wf_array a ->
  Forall (fun z => (0 <= z <= 9)%Z) (data a) ->
  r < 9 -> c < 9 ->
  Dict.keys (to_dictionary a "0") = cells /\
  nth (9 * r + c) cells "" = cell_at r c /\
  Dict.get (to_dictionary a "0") (cell_at r c)
  = Ret (if (Np.get2 a r c =? 0)%Z then "123456789"
         else digit_string (Np.get2 a r c)).
Proof.
  intros Hs Hwf Hrange Hr Hc.
  pose proof (wf_grid_length a Hs Hwf) as Hlen.
  split; [now apply to_dictionary_keys|]. split.
  - assert (H : forallb (fun r => forallb (fun c =>
                  String.eqb (nth (9 * r + c) cells "") (cell_at r c))
                  (seq 0 9)) (seq 0 9) = true) by (vm_compute; reflexivity).
    rewrite forallb_forall in H. specialize (H r ltac:(apply in_seq; lia)).
    rewrite forallb_forall in H. specialize (H c ltac:(apply in_seq; lia)).
    now apply String.eqb_eq in H.
  - rewrite decoded_at by assumption. f_equal.
    pose proof (get2_range a r c Hs Hwf Hrange Hr Hc) as Hz.
    destruct (Z.eqb_spec (Np.get2 a r c) 0) as [->|Hne]; [reflexivity|].
    destruct (str_digit (Np.get2 a r c)) as (_ & -> & _); [lia|].
    apply str_digit_string. lia.
Qed.

(** X3. Encoding what was decoded gives the grid back: for a 9x9 grid of
    digits 1 to 9, [to_numpy_array(to_dictionary(grid))] is the grid. *)
Theorem encode_after_decode_is_the_grid (a : ndarray) :
  shape a = [9; 9] -> wf_array a ->
  Forall (fun z => (1 <= z <= 9)%Z) (data a) ->
  snd (to_numpy_array (as_values (to_dictionary a "0"))) = Ret a.
Proof.
  intros Hs Hwf Hrange. pose proof (wf_grid_length a Hs Hwf) as Hlen.
  pose proof (to_dictionary_keys a "0" Hlen) as Hd.
  rewrite (to_numpy_array_ok (to_dictionary a "0") (data a)).
  - cbn [snd]. f_equal. clear -Hs. destruct a as [sh dt].
    cbn [shape] in Hs. unfold grid. cbn [data]. now rewrite Hs.
  - now apply on_cells_NoDup.
  - now apply on_cells_length.
  - rewrite to_dictionary_items by exact Hlen.
    apply filled_ints; [|exact Hrange]. now rewrite Hlen.
Qed.

Lemma combine_keys_values {V : Type} (d : Dict.t V) :
  combine (Dict.keys d) (Dict.values d) = d.
Proof.
  induction d as [|[k v] d IH]; simpl; [reflexivity|]. now rewrite IH.
Qed.

Lemma solved_decode (d : Dict.t string) (ns : list Z) :
  only_digits d -> all_solved d ->
  Forall2 (fun kv n => Str.int (snd kv) = Ret n) d ns ->
  map (decode "0") ns = Dict.values d.
Proof.
  intros Hdig Hsol Hall. induction Hall as [|[k v] n d ns Hv _ IH];
    [reflexivity|].
  simpl in *. f_equal.
  - destruct (solved_digit v) as (z & Hz & Ev & Hint).
    + apply (Hsol k v). now left.
    + apply (Hdig k v). now left.
    + rewrite Hint in Hv. injection Hv as <-.
      destruct (str_digit z Hz) as (_ & -> & _). now symmetry.
  - apply IH.
    + intros k' v' Hin. apply (Hdig k' v'). now right.
    + intros k' v' Hin. apply (Hsol k' v'). now right.
Qed.

(** X4. Decoding what was encoded gives the state back: when every cell of a
    state holds one digit, [to_numpy_array] returns a grid that
    [to_dictionary] turns into that state again. *)
Theorem decode_after_encode_is_the_state (d : Dict.t string) :
  on_cells d -> all_solved d -> only_digits d ->
  exists g, snd (to_numpy_array (as_values d)) = Ret g /\
            to_dictionary g "0" = d.
Proof.
  intros Hd Hsol Hdig.
  destruct (solved_ints d Hdig Hsol) as [ns Hns].
  pose proof (Forall2_length Hns) as Hlen.
  rewrite (on_cells_length d Hd) in Hlen.
  exists (grid ns). split.
  - now rewrite (to_numpy_array_ok d ns (on_cells_NoDup d Hd)
                   (on_cells_length d Hd) Hns).
  - rewrite to_dictionary_items by (simpl; lia). cbn [data grid].
    rewrite (solved_decode d ns Hdig Hsol Hns), <- Hd.
    apply combine_keys_values.
Qed.



Lemma as_values_keys d : Dict.keys (as_values d) = Dict.keys d.
Proof. unfold Dict.keys, as_values. rewrite map_map. reflexivity. Qed.

Lemma as_values_ints d ns :
  Forall2 (fun kv n => Str.int (snd kv) = Ret n) d ns ->
  Forall2 (fun kv n => py_int (snd kv) = Ret n) (as_values d) ns.
Proof. induction 1; simpl; constructor; auto. Qed.


(** X6. A dictionary that does not have 81 items is converted all the same,
    and then [reshape((9, 9))] raises [ValueError]. *)
Theorem to_numpy_array_needs_81_items (d : Dict.t string) (ns : list Z) :
  NoDup (Dict.keys d) -> length d <> 81 ->
  Forall2 (fun kv n => Str.int (snd kv) = Ret n) d ns ->
  to_numpy_array (as_values d)
  = (combine (Dict.keys d) (map VInt ns), Raise ValueError).
Proof.
  intros Hnd Hlen Hall.
  pose proof (Forall2_length Hall) as Hns.
  pose proof (convert_items_ok (as_values d) [] ns) as Hconv.
  cbn [app] in Hconv. unfold to_numpy_array. rewrite Hconv.
  - rewrite as_values_keys. cbn [bind]. f_equal.
    unfold Dict.values. rewrite map_snd_combine.
    + rewrite map_map. cbn [entry_of]. rewrite map_id.
      unfold Np.array_reshape.
      destruct (Nat.eqb_spec (length ns) (fold_right Nat.mul 1 [9; 9]))
        as [E|E]; [|reflexivity].
      simpl in E. lia.
    + unfold Dict.keys. now rewrite !length_map.
  - now rewrite as_values_keys.
  - now apply as_values_ints.
Qed.

(** X7. Calling [to_numpy_array] again on the dictionary it has converted
    changes nothing more and returns the same array. *)
Theorem to_numpy_array_twice (d : Dict.t string) (ns : list Z) :
  NoDup (Dict.keys d) -> length d = 81 ->
  Forall2 (fun kv n => Str.int (snd kv) = Ret n) d ns ->
  to_numpy_array (fst (to_numpy_array (as_values d)))
  = to_numpy_array (as_values d).
Proof.
  intros Hnd Hlen Hall.
  pose proof (Forall2_length Hall) as Hns.
  rewrite (to_numpy_array_ok d ns Hnd Hlen Hall). cbn [fst].
  set (d' := combine (Dict.keys d) (map VInt ns)).
  assert (Hkeys : Dict.keys d' = Dict.keys d).
  { unfold d', Dict.keys. apply map_fst_combine.
    now rewrite !length_map. }
  assert (Hints : Forall2 (fun kv n => py_int (snd kv) = Ret n) d' ns).
  { unfold d'.
    assert (Hl : length (Dict.keys d) = length ns)
      by (unfold Dict.keys; now rewrite length_map).
    clear -Hl. revert Hl. generalize (Dict.keys d). intros ks. revert ns.
    induction ks as [|k ks IH]; intros [|n ns] Hl; simpl in *;
      try discriminate; constructor; [reflexivity|].
    apply IH. lia. }
  pose proof (convert_items_ok d' [] ns) as Hconv. cbn [app] in Hconv.
  unfold to_numpy_array. rewrite Hconv.
  - rewrite Hkeys. fold d'. cbn [bind]. f_equal.
    unfold Dict.values, d'. rewrite map_snd_combine.
    + rewrite map_map. cbn [entry_of]. rewrite map_id.
      unfold Np.array_reshape. rewrite <- Hns, Hlen. reflexivity.
    + unfold Dict.keys. now rewrite !length_map.
  - now rewrite Hkeys.
  - exact Hints.
Qed.

(** ** The neighbour table, once more *)

(** X8. The neighbour table is symmetric and leaves every cell out of its own
    set: whoever is listed for a cell is a cell that lists it back. *)
Theorem neighbours_table_is_symmetric (k : string) (ks : gset string) :
  neighbours !! k = Some ks ->
  In k cells /\ (k ∉ ks) /\
  forall x, x ∈ ks ->
    In x cells /\ exists xs, neighbours !! x = Some xs /\ k ∈ xs.
Proof.
  intros Hk. split; [now apply (neighbours_key k ks)|]. split.
  - intros Hin. apply elem_of_elements, list_elem_of_In in Hin.
    destruct (neighbours_closed k ks k Hk Hin) as (_ & Hne & _).
    now apply Hne.
  - intros x Hx. apply elem_of_elements, list_elem_of_In in Hx.
    destruct (neighbours_closed k ks x Hk Hx) as (Hc & _ & xs & Hxs & Hkx).
    split; [exact Hc|]. exists xs. split; [exact Hxs|].
    now apply elem_of_elements, list_elem_of_In.
Qed.

(** ** A grid without empty cells *)

Lemma digits_sum_small (l : list Z) :
  length l = 81 -> Forall (fun z => (1 <= z <= 9)%Z) l ->
  wrap64 (zsum l) = zsum l.
Proof.
  intros Hlen Hall.
  pose proof (zsum_bound l 9 ltac:(lia)) as Hb. rewrite Hlen in Hb.
  apply wrap64_small.
  assert (H : (- (Z.of_nat 81 * 9) <= zsum l <= Z.of_nat 81 * 9)%Z).
  { apply Hb. eapply Forall_impl; [|exact Hall]. simpl. lia. }
  lia.
Qed.

(** X9. A 9x9 grid of digits 1 to 9 is never looked into: [solve] returns it
    unchanged when its entries add up to 405, and the grid of -1 when they
    do not, whatever the rows, columns and boxes hold. *)
Theorem solve_of_a_filled_grid
    (join_set : string -> string -> list string -> string)
    (fuel : nat) (a : ndarray) :
  shape a = [9; 9] -> wf_array a ->
  Forall (fun z => (1 <= z <= 9)%Z) (data a) ->
  solve join_set (S (S fuel)) (AArray a)
  = Ret (if (zsum (data a) =? 405)%Z then a else no_solution).
Proof.
  intros Hs Hwf Hrange.
  pose proof (wf_grid_length a Hs Hwf) as Hlen.
  pose proof (to_dictionary_keys a "0" Hlen) as Hd.
  pose proof (filled_solved a Hlen Hrange) as Hsolved.
  rewrite solve_array_eq.
  replace (is_valid_puzzle a) with true.
  2:{ symmetry. apply is_valid_puzzle_iff; [exact Hwf|]. split; [exact Hs|].
      eapply Forall_impl; [|exact Hrange]. simpl. lia. }
  cbn [negb]. rewrite propagate_solved by assumption. cbn [bind].
  assert (Hints : Forall2 (fun kv n => Str.int (snd kv) = Ret n)
                          (to_dictionary a "0") (data a)).
  { rewrite to_dictionary_items by exact Hlen.
    apply filled_ints; [|exact Hrange]. now rewrite Hlen. }
  pose proof (to_numpy_array_ok _ _ (on_cells_NoDup _ Hd)
                (on_cells_length _ Hd) Hints) as Harr.
  pose proof (on_cells_length _ Hd) as Hdlen.
  destruct (to_dictionary a "0") as [|kv d]; [discriminate|].
  rewrite Harr. cbn [snd bind].
  rewrite (is_valid_solution_wrap (grid (data a)) 9 [9] eq_refl Hlen).
  change (data (grid (data a))) with (data a).
  cbn [bind]. rewrite (digits_sum_small _ Hlen Hrange).
  change (9 * 45)%Z with 405%Z.
  destruct (zsum (data a) =? 405)%Z; cbn [negb]; [|reflexivity].
  f_equal. clear -Hs. destruct a as [sh dt].
  cbn [shape] in Hs. unfold grid. cbn [data]. now rewrite Hs.
Qed.

(** ** What a pass does to the candidates *)

Lemma shrinks_refl d : shrinks d d.
Proof. intros k v Hv. exists v. repeat split; auto. Qed.

Section Shrinking.

Variable join_set : string -> string -> list string -> string.

Hypothesis join_set_spec : is_set_join join_set.

Lemma join_set_shrinks key value solved :
  (forall c, In c (Str.chars (join_set key value solved)) ->
             In c (Str.chars value)) /\
  len (join_set key value solved) <= len value.
Proof.
  destruct (join_set_spec key value solved) as [Hnd Hin].
  assert (Hincl : forall c, In c (Str.chars (join_set key value solved)) ->
                            In c (Str.chars value)).
  { intros c Hc. now apply Hin in Hc. }
  split; [exact Hincl|].
  rewrite <- !chars_length. now apply NoDup_incl_length.
Qed.

Lemma shrinks_step d0 d key value solved :
  shrinks d0 d -> Dict.get d key = Ret value -> len value <> 1 ->
  shrinks d0 (Dict.set d key (join_set key value solved)).
Proof.
  intros Hsh Hget Hlen k v0 Hv0.
  destruct (Hsh k v0 Hv0) as (v & Hv & Hsub & Hle & Hone).
  destruct (string_dec key k) as [->|Hne].
  - rewrite Hget in Hv. injection Hv as <-.
    destruct (join_set_shrinks k value solved) as [Hincl Hle'].
    exists (join_set k value solved). rewrite get_set_eq.
    split; [reflexivity|]. split; [auto|]. split; [lia|].
    intros H1. specialize (Hone H1). subst. contradiction.
  - exists v. rewrite get_set_ne by exact Hne. auto.
Qed.

Lemma pass_shrinks d :
  on_cells d ->
  exists d', eliminate join_set (Dict.keys d) d = Ret d' /\
             on_cells d' /\ shrinks d d' /\
             count_len 1 d <= count_len 1 d'.
Proof.
  intros Hd.
  destruct (eliminate_ind join_set
              (fun d' => shrinks d d' /\ count_len 1 d <= count_len 1 d'))
    with (todo := Dict.keys d) (d := d) as (d' & He & Hd' & Hsh & Hcount).
  - intros d1 key value solved _ [Hsh Hle] _ Hget Hlen _. split.
    + now apply shrinks_step.
    + pose proof (count_solved_set d1 key value
                    (join_set key value solved) Hget Hlen). lia.
  - rewrite Hd. apply incl_refl.
  - exact Hd.
  - split; [apply shrinks_refl|lia].
  - exists d'. auto.
Qed.

Lemma loop_shrinks fuel d d' :
  on_cells d -> elimination_loop join_set fuel d = Ret (Break d') ->
  on_cells d' /\ shrinks d d'.
Proof.
  intros Hd Hloop.
  apply (elimination_loop_ind join_set (shrinks d)) with (fuel := fuel) (d := d);
    [|exact Hd|apply shrinks_refl|exact Hloop].
  intros d1 key value solved _ Hsh _ Hget Hlen _. now apply shrinks_step.
Qed.

(** X10. A pass over the cells runs to its end without [KeyError] and only
    removes candidates: every cell keeps a subset of what it had, a solved
    cell keeps its digit, and no fewer cells are solved after the pass than
    before.  The same holds from the start of the loop to its [break]. *)
Theorem pass_only_removes_candidates (d : Dict.t string) :
  on_cells d ->
  (exists d', eliminate join_set (Dict.keys d) d = Ret d' /\
              on_cells d' /\ shrinks d d' /\
              count_len 1 d <= count_len 1 d') /\
  (forall fuel d', elimination_loop join_set fuel d = Ret (Break d') ->
                   on_cells d' /\ shrinks d d').
Proof.
  intros Hd. split; [now apply pass_shrinks|].
  intros fuel d'. now apply loop_shrinks.
Qed.

End Shrinking.

(** ** The loop and what follows it *)

Lemma filter_none {A : Type} (f : A -> bool) (l : list A) :
  existsb f l = false -> List.filter f l = [].
Proof.
  induction l as [|x l IH]; simpl; [reflexivity|].
  destruct (f x); simpl; [discriminate|exact IH].
Qed.

Section Loop.

Variable join_set : string -> string -> list string -> string.

Lemma elimination_loop_more_fuel fuel n d r :
  elimination_loop join_set fuel d = Ret r ->
  elimination_loop join_set (fuel + n) d = Ret r.
Proof.
  revert d. induction fuel as [|fuel IH]; intros d Hloop; [discriminate|].
  cbn [Nat.add elimination_loop] in *.
  destruct (eliminate join_set (Dict.keys d) d) as [d'| |]; cbn [bind] in *;
    try discriminate.
  destruct (count_len 1 d =? count_len 1 d'); [exact Hloop|].
  destruct (negb (count_len 0 d' =? 0)); [exact Hloop|].
  now apply IH.
Qed.

(** X11. The [while True] loop ends, and without [KeyError]: on a state with
    the 81 cells, one pass more than there are unsolved cells is always
    enough, and more fuel does not change how the loop ends. *)
Theorem elimination_loop_terminates (fuel : nat) (d : Dict.t string) :
  on_cells d -> 81 - count_len 1 d < fuel ->
  exists exit, forall n, elimination_loop join_set (fuel + n) d = Ret exit.
Proof.
  intros Hd Hfuel.
  destruct (elimination_loop_total join_set fuel d Hd Hfuel) as [exit Hexit].
  exists exit. intros n. now apply elimination_loop_more_fuel.
Qed.

Lemma propagate_after_loop (m fuel : nat) (d : Dict.t string) exit :
  on_cells d ->
  elimination_loop join_set fuel d = Ret exit ->
  propagate join_set (solve join_set (S m)) fuel d = after_loop exit.
Proof.
  intros Hd Hloop. destruct exit as [d'|];
    [|unfold propagate; rewrite Hloop; reflexivity].
  cbn [after_loop].
  destruct (forallb (fun kv => len (snd kv) =? 1) d') eqn:Hall.
  { unfold propagate. rewrite Hloop. cbn [bind]. now rewrite Hall. }
  destruct (existsb (fun kv => 1 <? len (snd kv)) d') eqn:Hex.
  - apply existsb_exists in Hex as ([k v] & Hin & Hlen).
    apply Nat.ltb_lt in Hlen.
    apply (propagate_stalled_raises join_set m fuel d d' Hd Hloop). eauto.
  - unfold propagate. rewrite Hloop. cbn [bind]. rewrite Hall.
    unfold unsolved_tuples. rewrite filter_none by exact Hex. reflexivity.
Qed.

(** X12. What [propagate] comes to is decided by how its loop ends.  After
    [return False] it is [False]; after [break] it is the state when every
    cell is solved, [AttributeError] when some cell has more than one
    candidate left, and [ValueError] otherwise.  It never returns [None] or
    an array. *)
Theorem propagate_outcomes (m fuel : nat) (d : Dict.t string) exit :
  on_cells d ->
  elimination_loop join_set fuel d = Ret exit ->
  propagate join_set (solve join_set (S m)) fuel d = after_loop exit.
Proof. apply propagate_after_loop. Qed.

Lemma solve_more_fuel fuel a :
  wf_array a -> 83 <= fuel ->
  solve join_set fuel (AArray a) = solve join_set 83 (AArray a).
Proof.
  intros Hwf Hfuel.
  destruct fuel as [|[|f]]; [lia|lia|].
  rewrite !solve_array_eq.
  destruct (is_valid_puzzle a) eqn:Hvalid; cbn [negb]; [|reflexivity].
  apply (is_valid_puzzle_iff a Hwf) in Hvalid as [Hs _].
  pose proof (to_dictionary_keys a "0" (wf_grid_length a Hs Hwf)) as Hd.
  destruct (elimination_loop_total join_set 82 _ Hd) as [exit Hexit].
  { pose proof (count_len_le 1 (to_dictionary a "0")). lia. }
  pose proof (elimination_loop_more_fuel 82 (f - 81) _ _ Hexit) as Hexit'.
  replace (82 + (f - 81)) with (S f) in Hexit' by lia.
  rewrite (propagate_after_loop f (S f) _ exit Hd Hexit').
  now rewrite (propagate_after_loop 81 82 _ exit Hd Hexit).
Qed.

(** X13. [solve] ends on every array: with 83 units of fuel the model never
    runs out, so the call returns or raises, and more fuel gives the same
    outcome. *)
Theorem solve_terminates (fuel : nat) (a : ndarray) :
  wf_array a -> 83 <= fuel ->
  solve join_set fuel (AArray a) = solve join_set 83 (AArray a) /\
  solve join_set 83 (AArray a) <> OutOfFuel.
Proof.
  intros Hwf Hfuel. split; [now apply solve_more_fuel|].
  now apply solve_total.
Qed.

End Loop.

(** ** Puzzles and their solutions *)

Lemma position_split p : p < 81 -> p / 9 < 9 /\ p mod 9 < 9 /\ p = p / 9 * 9 + p mod 9.
Proof.
  intros Hp. split; [apply Nat.Div0.div_lt_upper_bound; lia|].
  split; [apply Nat.mod_upper_bound; lia|].
  rewrite (Nat.div_mod_eq p 9) at 1. lia.
Qed.

Lemma Forall2_from_nth {A B : Type} (R : A -> B -> Prop) l l' da db :
  length l = length l' ->
  (forall p, p < length l -> R (nth p l da) (nth p l' db)) ->
  Forall2 R l l'.
Proof.
  revert l'. induction l as [|x l IH]; intros [|y l'] Hlen H;
    simpl in Hlen; try discriminate; constructor.
  - apply (H 0). simpl. lia.
  - apply IH; [lia|]. intros p Hp. apply (H (S p)). simpl. lia.
Qed.

Lemma NoDup_map_neq {A B : Type} (f : A -> B) (u : list A) x y :
  NoDup (map f u) -> In x u -> In y u -> x <> y -> f x <> f y.
Proof.
  induction u as [|w u IH]; simpl; [contradiction|].
  intros Hnd Hx Hy Hne E. inversion Hnd as [|? ? Hw Hu]; subst.
  destruct Hx as [->|Hx], Hy as [->|Hy].
  - contradiction.
  - apply Hw. rewrite E. now apply in_map.
  - apply Hw. rewrite <- E. now apply in_map.
  - now apply (IH Hu Hx Hy Hne).
Qed.

Lemma one_to_nine_NoDup : NoDup one_to_nine.
Proof.
  assert (E : nodup Z.eq_dec one_to_nine = one_to_nine) by reflexivity.
  rewrite <- E. apply NoDup_nodup.
Qed.

Lemma solution_entry s r c :
  shape s = [9; 9] -> wf_array s -> is_sudoku_solution s = true ->
  r < 9 -> c < 9 -> (1 <= Np.get2 s r c <= 9)%Z.
Proof.
  intros Hs Hwf Hsol Hr Hc.
  destruct (solution_facts s Hs Hwf Hsol) as [Hrange _].
  rewrite get2_grid by exact Hs. rewrite Forall_forall in Hrange.
  apply Hrange, nth_In. rewrite (wf_grid_length s Hs Hwf). lia.
Qed.

(** In a solution, two cells that share a unit hold different digits. *)
Lemma solution_peers_differ s r c r' c' :
  shape s = [9; 9] -> is_sudoku_solution s = true ->
  r < 9 -> c < 9 -> r' < 9 -> c' < 9 -> (r', c') <> (r, c) ->
  shares_unit r c r' c' = true ->
  Np.get2 s r c <> Np.get2 s r' c'.
Proof.
  intros Hs Hsol Hr Hc Hr' Hc' Hne Hshare.
  destruct (shares_common_unit (r, c) (r', c')) as (u & Hu & Hx & Hy);
    try assumption.
  destruct (unit_facts u Hu) as (Hlen & _ & _).
  unfold is_sudoku_solution in Hsol. rewrite forallb_forall in Hsol.
  specialize (Hsol u Hu). apply each_digit_once_perm in Hsol.
  - apply (NoDup_map_neq (fun rc => Np.get2 s (fst rc) (snd rc)) u
             (r, c) (r', c')); try assumption; [|congruence].
    eapply Permutation_NoDup; [exact Hsol|apply one_to_nine_NoDup].
  - now rewrite length_map.
Qed.

Lemma count_len_some n (d : Dict.t string) :
  count_len n d <> 0 -> exists k v, In (k, v) d /\ len v = n.
Proof.
  unfold count_len. induction d as [|[k v] d IH]; simpl; [congruence|].
  destruct (Nat.eqb_spec (len v) n) as [E|E].
  - intros _. exists k, v. auto.
  - intros H. destruct (IH H) as (k' & v' & Hin & Hl). exists k', v'. auto.
Qed.

Lemma completes_at s a r c :
  shape a = [9; 9] -> wf_array a -> shape s = [9; 9] ->
  completes s a -> r < 9 -> c < 9 ->
  Np.get2 a r c = 0%Z \/ Np.get2 s r c = Np.get2 a r c.
Proof.
  intros Ha Hwf Hs Hcomp Hr Hc. rewrite !get2_grid by assumption.
  apply (Forall2_at _ _ _ (r * 9 + c) 0%Z 0%Z Hcomp).
  rewrite (wf_grid_length a Ha Hwf). lia.
Qed.

Lemma str_in_digits z :
  (1 <= z <= 9)%Z -> In (Str.str z) (Str.chars digits).
Proof.
  intros Hz. apply digit_cases in Hz. simpl in Hz.
  repeat (destruct Hz as [<-|Hz]; [vm_compute; tauto|]). contradiction.
Qed.

Lemma chars_str z : (1 <= z <= 9)%Z -> Str.chars (Str.str z) = [Str.str z].
Proof. intros Hz. apply chars_single. now destruct (str_digit z Hz). Qed.

Section Solving.

Variable join_set : string -> string -> list string -> string.

Hypothesis join_set_spec : is_set_join join_set.

Variable s : ndarray.

Hypothesis s_shape : shape s = [9; 9].
Hypothesis s_wf : wf_array s.
Hypothesis s_solution : is_sudoku_solution s = true.

Lemma admits_start a :
  shape a = [9; 9] -> wf_array a -> completes s a ->
  admits s (to_dictionary a "0").
Proof.
  intros Ha Hwf Hcomp r c Hr Hc.
  rewrite decoded_at by assumption. eexists. split; [reflexivity|].
  pose proof (solution_entry s r c s_shape s_wf s_solution Hr Hc) as Hz.
  destruct (completes_at s a r c Ha Hwf s_shape Hcomp Hr Hc) as [E|E].
  - rewrite E, decode_zero. now apply str_in_digits.
  - rewrite <- E. destruct (str_digit _ Hz) as (_ & -> & _).
    rewrite chars_str by exact Hz. now left.
Qed.

Lemma admits_step d key value solved :
  on_cells d -> admits s d -> In key cells ->
  Dict.get d key = Ret value -> len value <> 1 ->
  (forall t, In t solved <-> taken d key t) ->
  admits s (Dict.set d key (join_set key value solved)).
Proof.
  intros Hd Hadm Hkey Hget _ Hsolved r c Hr Hc.
  destruct (Hadm r c Hr Hc) as (v & Hv & Hin).
  destruct (string_dec key (cell_at r c)) as [->|Hne].
  - rewrite get_set_eq. eexists. split; [reflexivity|].
    rewrite Hget in Hv. injection Hv as <-.
    apply join_set_spec. split; [exact Hin|].
    intros Htaken. apply Hsolved in Htaken
      as (ks & k' & Hks & Hk' & Hg & H1).
    destruct (neighbours_at r c ks Hr Hc Hks) as [_ Hpeers].
    apply list_elem_of_In, elem_of_elements, Hpeers, in_peers_at in Hk'
      as (r' & c' & Hr' & Hc' & -> & Hdiff & Hshare).
    destruct (Hadm r' c' Hr' Hc') as (v' & Hv' & Hin').
    rewrite Hg in Hv'. injection Hv' as <-.
    pose proof (solution_entry s r c s_shape s_wf s_solution Hr Hc) as Hz.
    pose proof (solution_entry s r' c' s_shape s_wf s_solution Hr' Hc')
      as Hz'.
    rewrite chars_str in Hin' by exact Hz. destruct Hin' as [E|[]].
    apply (solution_peers_differ s r c r' c'); try assumption.
    now apply str_injective.
  - rewrite get_set_ne by exact Hne. eauto.
Qed.

Lemma loop_admits fuel d d' :
  on_cells d -> admits s d ->
  elimination_loop join_set fuel d = Ret (Break d') ->
  on_cells d' /\ admits s d'.
Proof.
  apply (elimination_loop_ind join_set (admits s)).
  intros d0 key value solved H1 H2 H3 H4 H5 H6. now apply admits_step.
Qed.

(** A state that admits a solution has no empty cell. *)
Lemma admits_no_empty d k v :
  on_cells d -> admits s d -> In (k, v) d -> len v <> 0.
Proof.
  intros Hd Hadm Hin.
  destruct (proj1 (in_cells_iff k) (on_cells_In d k v Hd Hin))
    as (r & c & Hr & Hc & ->).
  destruct (Hadm r c Hr Hc) as (v' & Hv' & Hin').
  rewrite (get_In d _ v (on_cells_NoDup d Hd) Hin) in Hv'.
  injection Hv' as <-. rewrite <- chars_length.
  destruct (Str.chars v); [contradiction|discriminate].
Qed.

Lemma loop_never_false fuel d :
  on_cells d -> admits s d ->
  elimination_loop join_set fuel d <> Ret ReturnFalse.
Proof.
  revert d. induction fuel as [|fuel IH]; intros d Hd Hadm; [discriminate|].
  cbn [elimination_loop].
  destruct (eliminate_ind join_set (admits s)) with (todo := Dict.keys d) (d := d)
    as (d1 & He & Hd1 & Hadm1).
  - intros d0 key value solved H1 H2 H3 H4 H5 H6. now apply admits_step.
  - rewrite Hd. apply incl_refl.
  - exact Hd.
  - exact Hadm.
  - rewrite He. cbn [bind].
    destruct (count_len 1 d =? count_len 1 d1); [discriminate|].
    destruct (Nat.eqb_spec (count_len 0 d1) 0) as [E|E]; cbn [negb].
    + now apply IH.
    + exfalso. destruct (count_len_some 0 d1 E) as (k & v & Hin & Hl).
      now apply (admits_no_empty d1 k v Hd1 Hadm1 Hin).
Qed.

(** The grid read off a solved state that admits [s] is [s]. *)
Lemma admitted_grid d ns :
  on_cells d -> all_solved d -> admits s d ->
  Forall2 (fun kv n => Str.int (snd kv) = Ret n) d ns ->
  grid ns = s.
Proof.
  intros Hd Hsol Hadm Hns.
  pose proof (Forall2_length Hns) as Hlen.
  rewrite (on_cells_length d Hd) in Hlen.
  pose proof (wf_grid_length s s_shape s_wf) as Hslen.
  assert (E : ns = data s).
  { apply (nth_ext _ _ 0%Z 0%Z); [lia|]. intros p Hp.
    destruct (position_split p ltac:(lia)) as (Hr & Hc & Ep).
    destruct (Hadm _ _ Hr Hc) as (v & Hv & Hin).
    pose proof (solution_entry s _ _ s_shape s_wf s_solution Hr Hc) as Hz.
    pose proof (get_at d _ _ "" Hd Hr Hc) as Hget. rewrite <- Ep in Hget.
    rewrite Hv in Hget. injection Hget as Ev.
    pose proof (Forall2_at _ d ns p ("", "") 0%Z Hns ltac:(rewrite (on_cells_length d Hd); lia)) as Hint.
    cbn beta in Hint.
    assert (Hvp : snd (nth p d ("", "")) = v).
    { rewrite Ev. unfold Dict.values. symmetry.
      apply (map_nth snd d ("", "")). }
    rewrite Hvp in Hint.
    assert (H1 : len v = 1).
    { apply (Hsol (cell_at (p / 9) (p mod 9)) v). now apply get_Ret. }
    rewrite (chars_single v H1) in Hin. destruct Hin as [E|[]].
    destruct (str_digit _ Hz) as (_ & _ & Hback).
    rewrite E, Hback in Hint. injection Hint as <-.
    rewrite get2_grid by exact s_shape. f_equal. symmetry. exact Ep. }
  rewrite E. clear -s_shape. destruct s as [sh dt].
  cbn [shape] in s_shape. unfold grid. cbn [data]. now rewrite s_shape.
Qed.

Lemma completes_valid a :
  shape a = [9; 9] -> wf_array a -> completes s a ->
  is_valid_puzzle a = true.
Proof.
  intros Ha Hwf Hcomp. apply (is_valid_puzzle_iff a Hwf).
  split; [exact Ha|].
  destruct (solution_facts s s_shape s_wf s_solution) as [Hrange _].
  unfold completes in Hcomp. revert Hrange.
  induction Hcomp as [|x y l l' Hxy _ IH]; intros Hrange; constructor.
  - inversion Hrange; subst. destruct Hxy as [-> | ->]; lia.
  - apply IH. now inversion Hrange.
Qed.

(** X14. Elimination never discards a solution, so what [solve] returns is
    the only one: when [solve] returns a grid other than the grid of -1,
    every solution that has the clues of the input is that grid. *)
Theorem solve_returns_the_only_solution (fuel : nat) (a g : ndarray) :
  wf_array a -> completes s a ->
  solve join_set fuel (AArray a) = Ret g -> g <> no_solution ->
  g = s.
Proof.
  intros Hwf Hcomp Hsolve Hg.
  destruct fuel as [|fuel]; [discriminate|].
  rewrite solve_array_eq in Hsolve.
  destruct (is_valid_puzzle a) eqn:Hvalid; cbn [negb] in Hsolve;
    [|congruence].
  apply (is_valid_puzzle_iff a Hwf) in Hvalid as [Ha Hrange].
  pose proof (wf_grid_length a Ha Hwf) as Hlen.
  destruct (propagate join_set (solve join_set fuel) fuel
              (to_dictionary a "0")) as [[| |d|r]| |] eqn:Hp;
    cbn [bind] in Hsolve; try congruence.
  - apply propagate_dict in Hp as [Hloop Hsol].
    destruct (loop_admits fuel _ d (to_dictionary_keys a "0" Hlen)
                (admits_start a Ha Hwf Hcomp) Hloop) as [Hd Hadm].
    assert (Hdig : only_digits d).
    { intros k v Hin c Hc.
      destruct (proj1 (in_cells_iff k) (on_cells_In d k v Hd Hin))
        as (r & c0 & Hr & Hc0 & ->).
      destruct (Hadm r c0 Hr Hc0) as (v' & Hv' & Hin').
      rewrite (get_In d _ v (on_cells_NoDup d Hd) Hin) in Hv'.
      injection Hv' as <-.
      rewrite (chars_single v (Hsol _ _ Hin)) in Hc, Hin'.
      destruct Hc as [<-|[]]. destruct Hin' as [E|[]]. rewrite E.
      apply str_in_digits.
      now apply (solution_entry s r c0 s_shape s_wf s_solution). }
    destruct (solved_ints d Hdig Hsol) as [ns Hns].
    pose proof (to_numpy_array_ok d ns (on_cells_NoDup d Hd)
                  (on_cells_length d Hd) Hns) as Harr.
    pose proof (admitted_grid d ns Hd Hsol Hadm Hns) as Egrid.
    destruct d as [|kv d]; [congruence|].
    rewrite Harr in Hsolve. cbn [snd bind] in Hsolve.
    destruct (is_valid_solution (grid ns)) as [[|]| |]; cbn [bind negb] in Hsolve;
      congruence.
  - destruct (array_truth r) as [[|]| |]; cbn [bind negb] in Hsolve;
      congruence.
Qed.

(** X15. A puzzle that has a solution is never answered with the grid of -1:
    [solve] returns that solution, or it reaches the guess step and raises
    [AttributeError]. *)
Theorem solve_of_a_solvable_puzzle (fuel : nat) (a : ndarray) :
  shape a = [9; 9] -> wf_array a -> completes s a -> 83 <= fuel ->
  solve join_set fuel (AArray a) = Ret s \/
  solve join_set fuel (AArray a) = Raise AttributeError.
Proof.
  intros Ha Hwf Hcomp Hfuel.
  destruct fuel as [|[|f]]; [lia|lia|].
  pose proof (wf_grid_length a Ha Hwf) as Hlen.
  pose proof (to_dictionary_keys a "0" Hlen) as Hd.
  pose proof (admits_start a Ha Hwf Hcomp) as Hadm.
  rewrite solve_array_eq, (completes_valid a Ha Hwf Hcomp). cbn [negb].
  destruct (elimination_loop_total join_set (S f) _ Hd) as [exit Hexit].
  { pose proof (count_len_le 1 (to_dictionary a "0")). lia. }
  rewrite (propagate_after_loop join_set f (S f) _ exit Hd Hexit).
  destruct exit as [d|]; [|now apply loop_never_false in Hexit].
  destruct (loop_admits (S f) _ d Hd Hadm Hexit) as [Hd' Hadm'].
  cbn [after_loop].
  destruct (forallb (fun kv => len (snd kv) =? 1) d) eqn:Hall.
  - left. cbn [bind].
    assert (Hsol : all_solved d).
    { intros k v Hin. rewrite forallb_forall in Hall.
      specialize (Hall _ Hin). now apply Nat.eqb_eq in Hall. }
    assert (Hdig : only_digits d).
    { intros k v Hin c Hc.
      destruct (proj1 (in_cells_iff k) (on_cells_In d k v Hd' Hin))
        as (r & c0 & Hr & Hc0 & ->).
      destruct (Hadm' r c0 Hr Hc0) as (v' & Hv' & Hin').
      rewrite (get_In d _ v (on_cells_NoDup d Hd') Hin) in Hv'.
      injection Hv' as <-.
      rewrite (chars_single v (Hsol _ _ Hin)) in Hc, Hin'.
      destruct Hc as [<-|[]]. destruct Hin' as [E|[]]. rewrite E.
      apply str_in_digits.
      now apply (solution_entry s r c0 s_shape s_wf s_solution). }
    destruct (solved_ints d Hdig Hsol) as [ns Hns].
    pose proof (to_numpy_array_ok d ns (on_cells_NoDup d Hd')
                  (on_cells_length d Hd') Hns) as Harr.
    pose proof (admitted_grid d ns Hd' Hsol Hadm' Hns) as Egrid.
    pose proof (on_cells_length d Hd') as Hdlen.
    destruct d as [|kv d]; [discriminate|].
    rewrite Harr. cbn [snd bind]. rewrite Egrid.
    rewrite (is_valid_solution_wrap s 9 [9] s_shape s_wf). cbn [bind].
    destruct (solution_facts s s_shape s_wf s_solution) as [_ Hsum].
    rewrite Hsum. reflexivity.
  - right.
    destruct (existsb (fun kv => 1 <? len (snd kv)) d) eqn:Hex;
      [reflexivity|exfalso].
    assert (Hone : forall k v, In (k, v) d -> len v = 1).
    { intros k v Hin.
      pose proof (admits_no_empty d k v Hd' Hadm' Hin) as Hne.
      destruct (Nat.ltb_spec 1 (len v)) as [Hlt|Hle]; [|lia].
      assert (Ht : existsb (fun kv => 1 <? len (snd kv)) d = true).
      { apply existsb_exists. exists (k, v). split; [exact Hin|].
        now apply Nat.ltb_lt. }
      congruence. }
    assert (Ht : forallb (fun kv => len (snd kv) =? 1) d = true).
    { apply forallb_forall. intros [k v] Hin. apply Nat.eqb_eq.
      now apply (Hone k v). }
    congruence.
Qed.

End Solving.

(** ** The clues in the answer *)

Lemma ints_range (d : Dict.t string) (ns : list Z) :
  only_digits d -> all_solved d ->
  Forall2 (fun kv n => Str.int (snd kv) = Ret n) d ns ->
  Forall (fun z => (1 <= z <= 9)%Z) ns.
Proof.
  intros Hdig Hsol Hall. induction Hall as [|[k v] n d ns Hv _ IH];
    constructor.
  - destruct (solved_digit v) as (z & Hz & _ & Hint).
    + apply (Hsol k v). now left.
    + apply (Hdig k v). now left.
    + simpl in Hv. rewrite Hint in Hv. now injection Hv as <-.
  - apply IH.
    + intros k' v' Hin. apply (Hdig k' v'). now right.
    + intros k' v' Hin. apply (Hsol k' v'). now right.
Qed.

Lemma decoded_digits a :
  length (data a) = 81 -> Forall (fun z => (0 <= z <= 9)%Z) (data a) ->
  only_digits (to_dictionary a "0").
Proof.
  intros Hlen Hrange k v Hin. rewrite to_dictionary_items in Hin by exact Hlen.
  apply in_combine_r, in_map_iff in Hin as (z & <- & Hz).
  apply decode_digits. rewrite Forall_forall in Hrange. auto.
Qed.

Lemma keeps_clues_start a :
  shape a = [9; 9] -> wf_array a ->
  Forall (fun z => (0 <= z <= 9)%Z) (data a) ->
  keeps_clues a (to_dictionary a "0").
Proof.
  intros Ha Hwf Hrange r c Hr Hc Hne.
  rewrite decoded_at by assumption. f_equal.
  pose proof (get2_range a r c Ha Hwf Hrange Hr Hc) as Hz.
  now destruct (str_digit (Np.get2 a r c)) as (_ & -> & _); [lia|].
Qed.

Section Clues.

Variable join_set : string -> string -> list string -> string.

Hypothesis join_set_spec : is_set_join join_set.

Lemma only_digits_step d key value solved :
  only_digits d -> Dict.get d key = Ret value ->
  only_digits (Dict.set d key (join_set key value solved)).
Proof.
  intros Hdig Hget k v Hin c Hc.
  apply In_set in Hin as [[-> ->]|Hin]; [|now apply (Hdig k v)].
  apply join_set_spec in Hc as [Hc _].
  apply (Hdig key value); [now apply get_Ret|exact Hc].
Qed.

Lemma keeps_clues_step a d key value solved :
  shape a = [9; 9] -> wf_array a ->
  Forall (fun z => (0 <= z <= 9)%Z) (data a) ->
  keeps_clues a d -> Dict.get d key = Ret value -> len value <> 1 ->
  keeps_clues a (Dict.set d key (join_set key value solved)).
Proof.
  intros Ha Hwf Hrange Hkeep Hget Hlen r c Hr Hc Hne.
  specialize (Hkeep r c Hr Hc Hne).
  destruct (string_dec key (cell_at r c)) as [->|Hk].
  - rewrite Hkeep in Hget. injection Hget as <-.
    pose proof (get2_range a r c Ha Hwf Hrange Hr Hc) as Hz.
    destruct (str_digit (Np.get2 a r c)) as (H1 & _); [lia|contradiction].
  - now rewrite get_set_ne.
Qed.

Lemma loop_keeps_clues a fuel d :
  shape a = [9; 9] -> wf_array a ->
  Forall (fun z => (0 <= z <= 9)%Z) (data a) ->
  elimination_loop join_set fuel (to_dictionary a "0") = Ret (Break d) ->
  on_cells d /\ only_digits d /\ keeps_clues a d.
Proof.
  intros Ha Hwf Hrange Hloop.
  pose proof (wf_grid_length a Ha Hwf) as Hlen.
  apply (elimination_loop_ind join_set
           (fun d => only_digits d /\ keeps_clues a d))
    with (fuel := fuel) (d := to_dictionary a "0");
    [|now apply to_dictionary_keys| |exact Hloop].
  - intros d0 key value solved _ [Hdig Hkeep] _ Hget Hl _. split.
    + now apply only_digits_step.
    + now apply keeps_clues_step.
  - split; [now apply decoded_digits|now apply keeps_clues_start].
Qed.

(** X16. What [solve] returns, when it is not the grid of -1, is a 9x9 grid
    of digits 1 to 9 that add up to 405, and it has every clue of the input
    where the input had it. *)
Theorem solve_keeps_the_clues (fuel : nat) (a g : ndarray) :
  wf_array a ->
  solve join_set fuel (AArray a) = Ret g -> g <> no_solution ->
  shape g = [9; 9] /\
  Forall (fun z => (1 <= z <= 9)%Z) (data g) /\
  zsum (data g) = 405%Z /\
  completes g a.
Proof.
  intros Hwf Hsolve Hg.
  destruct fuel as [|fuel]; [discriminate|].
  rewrite solve_array_eq in Hsolve.
  destruct (is_valid_puzzle a) eqn:Hvalid; cbn [negb] in Hsolve;
    [|congruence].
  apply (is_valid_puzzle_iff a Hwf) in Hvalid as [Ha Hrange].
  pose proof (wf_grid_length a Ha Hwf) as Hlen.
  destruct (propagate join_set (solve join_set fuel) fuel
              (to_dictionary a "0")) as [[| |d|r]| |] eqn:Hp;
    cbn [bind] in Hsolve; try congruence.
  2:{ destruct (array_truth r) as [[|]| |]; cbn [bind negb] in Hsolve;
        congruence. }
  apply propagate_dict in Hp as [Hloop Hsol].
  destruct (loop_keeps_clues a fuel d Ha Hwf Hrange Hloop)
    as (Hd & Hdig & Hkeep).
  destruct (solved_ints d Hdig Hsol) as [ns Hns].
  pose proof (to_numpy_array_ok d ns (on_cells_NoDup d Hd)
                (on_cells_length d Hd) Hns) as Harr.
  pose proof (Forall2_length Hns) as Hnslen.
  rewrite (on_cells_length d Hd) in Hnslen.
  pose proof (ints_range d ns Hdig Hsol Hns) as Hnsrange.
  assert (Hcomp : completes (grid ns) a).
  { unfold completes. cbn [grid data].
    apply (Forall2_from_nth _ _ _ 0%Z 0%Z); [lia|].
    intros p Hp. rewrite Hlen in Hp.
    destruct (position_split p Hp) as (Hr & Hc & Ep).
    remember (p / 9) as r eqn:Er. remember (p mod 9) as c eqn:Ec.
    clear Er Ec. subst p.
    destruct (Z.eq_dec (nth (r * 9 + c) (data a) 0%Z) 0) as [E|E];
      [now left|right].
    rewrite <- (get2_grid a r c Ha) in E |- *.
    destruct (entry_at d ns (r, c) Hd Hdig Hsol Hns Hr Hc)
      as (v & z & Hget & _ & Hz & Ev & Ez).
    unfold cell_of in Hget. cbn [fst snd] in Hget, Ez.
    rewrite (Hkeep r c Hr Hc E) in Hget. injection Hget as Hv.
    rewrite get2_grid in Ez by reflexivity. cbn [grid data] in Ez.
    rewrite Ez. symmetry. apply str_injective; [|exact Hz|congruence].
    pose proof (get2_range a r c Ha Hwf Hrange Hr Hc). lia. }
  destruct d as [|kv d]; [congruence|].
  rewrite Harr in Hsolve. cbn [snd bind] in Hsolve.
  rewrite (is_valid_solution_wrap (grid ns) 9 [9] eq_refl) in Hsolve
    by (unfold wf_array; simpl; lia).
  cbn [bind grid data] in Hsolve.
  rewrite (digits_sum_small ns (eq_sym Hnslen) Hnsrange) in Hsolve.
  destruct (Z.eqb_spec (zsum ns) (9 * 45)) as [Hsum|Hsum];
    cbn [negb] in Hsolve; [|congruence].
  injection Hsolve as <-. cbn [grid shape data]. auto.
Qed.

End Clues.

(** ** The order of the sets does not matter *)

Lemma perm_len v1 v2 :
  Permutation (Str.chars v1) (Str.chars v2) -> len v1 = len v2.
Proof. intros H. rewrite <- !chars_length. now apply Permutation_length. Qed.

Lemma perm_single v1 v2 :
  Permutation (Str.chars v1) (Str.chars v2) -> len v1 = 1 -> v1 = v2.
Proof.
  intros H H1. pose proof (perm_len v1 v2 H) as H2. rewrite H1 in H2.
  rewrite (chars_single v1 H1), (chars_single v2 (eq_sym H2)) in H.
  now apply Permutation_length_1 in H.
Qed.

Lemma similar_refl d : similar d d.
Proof. induction d; constructor; auto. Qed.

Lemma similar_get d1 d2 k :
  similar d1 d2 ->
  (exists v1 v2, Dict.get d1 k = Ret v1 /\ Dict.get d2 k = Ret v2 /\
                 Permutation (Str.chars v1) (Str.chars v2)) \/
  (Dict.get d1 k = Raise KeyError /\ Dict.get d2 k = Raise KeyError).
Proof.
  induction 1 as [|[k1 v1] [k2 v2] d1 d2 [Hk Hv] _ IH]; simpl in *;
    [now right|].
  subst k2. destruct (String.eqb k k1); [|exact IH].
  left. exists v1, v2. auto.
Qed.

Lemma similar_set d1 d2 k v1 v2 :
  similar d1 d2 -> Permutation (Str.chars v1) (Str.chars v2) ->
  similar (Dict.set d1 k v1) (Dict.set d2 k v2).
Proof.
  intros Hsim Hv.
  induction Hsim as [|[k1 w1] [k2 w2] d1 d2 [Hk Hw] Hrest IH]; simpl in *.
  - constructor; [auto|constructor].
  - subst k2. destruct (String.eqb k k1); constructor; auto.
Qed.

Lemma similar_solved_values d1 d2 ks :
  similar d1 d2 -> solved_values d1 ks = solved_values d2 ks.
Proof.
  intros Hsim. induction ks as [|k ks IH]; [reflexivity|].
  cbn [solved_values].
  destruct (similar_get d1 d2 k Hsim)
    as [(v1 & v2 & -> & -> & Hv)|[-> ->]]; [|reflexivity].
  cbn [bind]. rewrite IH.
  destruct (solved_values d2 ks); cbn [bind]; try reflexivity.
  rewrite <- (perm_len v1 v2 Hv).
  destruct (Nat.eqb_spec (len v1) 1) as [H1|H1]; [|reflexivity].
  now rewrite (perm_single v1 v2 Hv H1).
Qed.

Lemma similar_keys d1 d2 : similar d1 d2 -> Dict.keys d1 = Dict.keys d2.
Proof.
  induction 1 as [|[k1 v1] [k2 v2] d1 d2 [Hk _] _ IH]; simpl in *;
    [reflexivity|]. now rewrite Hk, IH.
Qed.

Lemma similar_count n d1 d2 :
  similar d1 d2 -> count_len n d1 = count_len n d2.
Proof.
  unfold count_len.
  induction 1 as [|[k1 v1] [k2 v2] d1 d2 [_ Hv] _ IH]; simpl in *;
    [reflexivity|].
  rewrite (perm_len v1 v2 Hv). destruct (len v2 =? n); simpl; now rewrite IH.
Qed.

Lemma similar_all_solved d1 d2 :
  similar d1 d2 ->
  forallb (fun kv => len (snd kv) =? 1) d1
  = forallb (fun kv => len (snd kv) =? 1) d2 /\
  (forallb (fun kv => len (snd kv) =? 1) d1 = true -> d1 = d2).
Proof.
  induction 1 as [|[k1 v1] [k2 v2] d1 d2 [Hk Hv] _ [IH1 IH2]]; simpl in *;
    [auto|].
  subst k2. rewrite <- (perm_len v1 v2 Hv), IH1. split; [reflexivity|].
  intros H. apply andb_prop in H as [H1 H2]. apply Nat.eqb_eq in H1.
  rewrite (perm_single v1 v2 Hv H1), IH2; [reflexivity|].
  now rewrite IH1.
Qed.

Lemma similar_unsolved d1 d2 :
  similar d1 d2 -> unsolved_tuples d1 = unsolved_tuples d2.
Proof.
  unfold unsolved_tuples.
  induction 1 as [|[k1 v1] [k2 v2] d1 d2 [Hk Hv] _ IH]; [reflexivity|].
  cbn [fst snd] in Hk, Hv. subst k2. cbn [List.filter snd].
  rewrite (perm_len v1 v2 Hv).
  destruct (1 <? len v2); cbn [map fst snd];
    now rewrite IH, ?(perm_len v1 v2 Hv).
Qed.

Lemma guess_alike js1 js2 f d1 d2 k1 k2 (todo1 todo2 : list string) :
  length todo1 = length todo2 ->
  guess (solve js1 f) d1 k1 todo1 = guess (solve js2 f) d2 k2 todo2.
Proof.
  destruct todo1, todo2; simpl; try discriminate; [reflexivity|].
  intros _. now destruct f.
Qed.

Section SetOrders.

Variables js1 js2 : string -> string -> list string -> string.

Hypothesis js1_spec : is_set_join js1.
Hypothesis js2_spec : is_set_join js2.

Lemma joins_alike key v1 v2 solved :
  Permutation (Str.chars v1) (Str.chars v2) ->
  Permutation (Str.chars (js1 key v1 solved)) (Str.chars (js2 key v2 solved)).
Proof.
  intros Hv.
  destruct (js1_spec key v1 solved) as [Hnd1 Hin1].
  destruct (js2_spec key v2 solved) as [Hnd2 Hin2].
  apply NoDup_Permutation; [exact Hnd1|exact Hnd2|].
  intros c. rewrite Hin1, Hin2. split; intros [Hc Hfree]; (split; [|exact Hfree]).
  - now apply (Permutation_in _ Hv).
  - now apply (Permutation_in _ (Permutation_sym Hv)).
Qed.

Lemma similar_cell key d1 d2 :
  similar d1 d2 ->
  similar_results (eliminate_cell js1 key d1) (eliminate_cell js2 key d2).
Proof.
  intros Hsim. unfold eliminate_cell.
  destruct (similar_get d1 d2 key Hsim)
    as [(v1 & v2 & -> & -> & Hv)|[-> ->]]; [|reflexivity].
  cbn [bind]. rewrite <- (perm_len v1 v2 Hv).
  destruct (len v1 =? 1); cbn [negb]; [exact Hsim|].
  destruct (neighbours !! key) as [ks|]; cbn [bind]; [|reflexivity].
  rewrite (similar_solved_values d1 d2 _ Hsim).
  destruct (solved_values d2 (elements ks)) as [solved| |]; cbn [bind];
    [|reflexivity|exact I].
  apply similar_set; [exact Hsim|]. now apply joins_alike.
Qed.

Lemma similar_pass todo d1 d2 :
  similar d1 d2 ->
  similar_results (eliminate js1 todo d1) (eliminate js2 todo d2).
Proof.
  revert d1 d2. induction todo as [|key todo IH]; intros d1 d2 Hsim;
    [exact Hsim|].
  cbn [eliminate]. pose proof (similar_cell key d1 d2 Hsim) as Hcell.
  destruct (eliminate_cell js1 key d1) as [d1'| |],
           (eliminate_cell js2 key d2) as [d2'| |];
    cbn [bind similar_results] in *; try contradiction; auto.
Qed.

Lemma similar_loop fuel d1 d2 :
  similar d1 d2 ->
  similar_exits (elimination_loop js1 fuel d1) (elimination_loop js2 fuel d2).
Proof.
  revert d1 d2. induction fuel as [|fuel IH]; intros d1 d2 Hsim; [exact I|].
  cbn [elimination_loop].
  rewrite (similar_keys d1 d2 Hsim), (similar_count 1 d1 d2 Hsim).
  pose proof (similar_pass (Dict.keys d2) d1 d2 Hsim) as Hpass.
  destruct (eliminate js1 (Dict.keys d2) d1) as [d1'| |],
           (eliminate js2 (Dict.keys d2) d2) as [d2'| |];
    cbn [bind similar_results similar_exits] in *; try contradiction; auto.
  rewrite (similar_count 1 d1' d2' Hpass), (similar_count 0 d1' d2' Hpass).
  destruct (count_len 1 d2 =? count_len 1 d2'); [exact Hpass|].
  destruct (negb (count_len 0 d2' =? 0)); [exact I|]. now apply IH.
Qed.

Lemma similar_propagate f fuel d1 d2 :
  similar d1 d2 ->
  propagate js1 (solve js1 f) fuel d1 = propagate js2 (solve js2 f) fuel d2.
Proof.
  intros Hsim. unfold propagate.
  pose proof (similar_loop fuel d1 d2 Hsim) as Hloop.
  destruct (elimination_loop js1 fuel d1) as [[d1'|]| |],
           (elimination_loop js2 fuel d2) as [[d2'|]| |];
    cbn [bind similar_exits] in *; try contradiction; try reflexivity;
    [|congruence].
  destruct (similar_all_solved d1' d2' Hloop) as [Hall Heq].
  rewrite <- Hall.
  destruct (forallb (fun kv => len (snd kv) =? 1) d1') eqn:Hsolved.
  - now rewrite (Heq eq_refl).
  - rewrite (similar_unsolved d1' d2' Hloop).
    destruct (py_min (unsolved_tuples d2')) as [m| |]; cbn [bind];
      try reflexivity.
    destruct (similar_get d1' d2' (snd m) Hloop)
      as [(v1 & v2 & -> & -> & Hv)|[-> ->]]; [|reflexivity].
    cbn [bind]. apply guess_alike.
    rewrite !chars_length. now apply perm_len.
Qed.

(** X17. The outcome of [solve] does not depend on the order in which Python
    iterates over its sets: two runs that order the characters of
    [''.join(set(...))] differently return the same grid or raise the same
    exception. *)
Theorem solve_ignores_the_set_order (fuel : nat) (a : ndarray) :
  solve js1 fuel (AArray a) = solve js2 fuel (AArray a).
Proof.
  destruct fuel as [|fuel]; [reflexivity|].
  rewrite !solve_array_eq.
  destruct (is_valid_puzzle a); cbn [negb]; [|reflexivity].
  now rewrite (similar_propagate fuel fuel _ _ (similar_refl _)).
Qed.

End SetOrders.

(** ** The sum check in 64 bits *)

(** X18. [is_valid_solution] adds up all the entries of an array of any shape
    in 64-bit arithmetic: it answers true exactly when the sum wraps to 405,
    also when the sum itself is not 405. *)
Theorem is_valid_solution_wraps_around (a : ndarray) (r : nat) (sh : list nat) :
  shape a = r :: sh -> wf_array a ->
  is_valid_solution a = Ret (wrap64 (zsum (data a)) =? 405)%Z.
Proof. apply is_valid_solution_wrap. Qed.

(** ** Another set order *)

Lemma join_reversed_spec : is_set_join join_reversed.
Proof.
  intros key value solved.
  pose proof (join_in_order_spec key value solved) as [Hnd Hin].
  unfold join_reversed. unfold join_in_order in Hnd, Hin.
  set (l := nodup string_dec
              (List.filter (fun c => negb (existsb (String.eqb c) solved))
                           (Str.chars value))) in *.
  assert (Hl : Forall (fun s => len s = 1) l).
  { apply Forall_forall. intros c Hc.
    apply nodup_In, filter_In in Hc as [Hc _]. now apply chars_len in Hc. }
  rewrite chars_concat in Hnd, Hin by exact Hl.
  rewrite chars_concat by now apply Forall_rev.
  split; [now apply NoDup_rev|]. intros c. rewrite <- in_rev. apply Hin.
Qed.

(** ** The theorems at work *)


Lemma guess_step_raises_instead_of_searching_witness :
  on_cells (to_dictionary empty_grid "0") /\
  elimination_loop join_in_order 1 (to_dictionary empty_grid "0")
  = Ret (Break (to_dictionary empty_grid "0")) /\
  (exists k v, In (k, v) (to_dictionary empty_grid "0") /\ 1 < len v) /\
  propagate join_in_order (solve join_in_order 1) 1
            (to_dictionary empty_grid "0") = Raise AttributeError.
Proof.
  assert (Hd : on_cells (to_dictionary empty_grid "0"))
    by (vm_compute; reflexivity).
  assert (Hloop : elimination_loop join_in_order 1
                    (to_dictionary empty_grid "0")
                  = Ret (Break (to_dictionary empty_grid "0")))
    by (vm_compute; reflexivity).
  assert (Hun : exists k v, In (k, v) (to_dictionary empty_grid "0") /\
                            1 < len v).
  { exists "11", digits. split; [|vm_compute; lia].
    vm_compute. left. reflexivity. }
  split; [exact Hd|]. split; [exact Hloop|]. split; [exact Hun|].
  exact (guess_step_raises_instead_of_searching join_in_order 0 1 _ _
           Hd Hloop Hun).
Defined.

Lemma solve_raises_on_the_empty_grid_witness :
  is_set_join join_in_order /\
  solve join_in_order 2 (AArray empty_grid) = Raise AttributeError.
Proof.
  split; [exact join_in_order_spec|].
  exact (solve_raises_on_the_empty_grid join_in_order join_in_order_spec 0).
Defined.

Lemma emptied_cell_is_not_reported_witness :
  is_set_join join_in_order /\
  exists d',
    eliminate join_in_order (Dict.keys (to_dictionary example_blocked "0"))
              (to_dictionary example_blocked "0") = Ret d' /\
    Dict.get d' "11" = Ret "" /\
    elimination_loop join_in_order 1 (to_dictionary example_blocked "0")
    = Ret (Break d') /\
    propagate join_in_order (solve join_in_order 1) 1
              (to_dictionary example_blocked "0") = Raise ValueError.
Proof.
  split; [exact join_in_order_spec|].
  exact (emptied_cell_is_not_reported join_in_order join_in_order_spec
           (solve join_in_order 1) 0).
Defined.



Lemma solve_returns_a_solution_unchanged_witness :
  shape example_solution = [9; 9] /\ wf_array example_solution /\
  is_sudoku_solution example_solution = true /\
  solve join_in_order 2 (AArray example_solution) = Ret example_solution /\
  eliminate join_in_order (Dict.keys (to_dictionary example_solution "0"))
            (to_dictionary example_solution "0")
  = Ret (to_dictionary example_solution "0") /\
  elimination_loop join_in_order 1 (to_dictionary example_solution "0")
  = Ret (Break (to_dictionary example_solution "0")).
Proof.
  assert (Hsol : is_sudoku_solution example_solution = true)
    by (vm_compute; reflexivity).
  split; [reflexivity|]. split; [reflexivity|]. split; [exact Hsol|].
  exact (solve_returns_a_solution_unchanged join_in_order 0 example_solution
           eq_refl eq_refl Hsol).
Defined.

Lemma to_numpy_array_rewrites_its_argument_witness :
  NoDup (Dict.keys (to_dictionary example_solution "0")) /\
  length (to_dictionary example_solution "0") = 81 /\
  Forall2 (fun kv n => Str.int (snd kv) = Ret n)
          (to_dictionary example_solution "0") (data example_solution) /\
  to_numpy_array (as_values (to_dictionary example_solution "0"))
  = (combine (Dict.keys (to_dictionary example_solution "0"))
             (map VInt (data example_solution)),
     Ret (grid (data example_solution))) /\
  fst (to_numpy_array (as_values (to_dictionary example_solution "0")))
  <> as_values (to_dictionary example_solution "0").
Proof.
  assert (Hd : on_cells (to_dictionary example_solution "0"))
    by (vm_compute; reflexivity).
  assert (Hnd : NoDup (Dict.keys (to_dictionary example_solution "0")))
    by exact (on_cells_NoDup _ Hd).
  assert (Hlen : length (to_dictionary example_solution "0") = 81)
    by reflexivity.
  assert (Hints : Forall2 (fun kv n => Str.int (snd kv) = Ret n)
                          (to_dictionary example_solution "0")
                          (data example_solution)).
  { rewrite to_dictionary_items by reflexivity.
    apply filled_ints; [reflexivity|].
    apply (solution_facts example_solution eq_refl eq_refl).
    vm_compute. reflexivity. }
  split; [exact Hnd|]. split; [exact Hlen|]. split; [exact Hints|].
  exact (to_numpy_array_rewrites_its_argument _ _ Hnd Hlen Hints).
Defined.

(** ** The further properties at work *)

Lemma completes_check (s a : ndarray) :
  length (data a) = length (data s) ->
  forallb (fun xy => (fst xy =? 0)%Z || (snd xy =? fst xy)%Z)
          (combine (data a) (data s)) = true ->
  completes s a.
Proof.
  unfold completes. generalize (data s), (data a). intros l' l. revert l'.
  induction l as [|x l IH]; intros [|y l'] Hlen Hall; simpl in *;
    try discriminate; constructor.
  - apply andb_prop in Hall as [H _]. apply orb_prop in H as [H|H];
      apply Z.eqb_eq in H; auto.
  - apply andb_prop in Hall as [_ H]. apply IH; [lia|exact H].
Qed.

Lemma example_puzzle_range :
  Forall (fun z => (0 <= z <= 9)%Z) (data example_puzzle).
Proof.
  apply (is_valid_puzzle_iff example_puzzle eq_refl).
  vm_compute. reflexivity.
Qed.

Lemma example_solution_solves : is_sudoku_solution example_solution = true.
Proof. vm_compute. reflexivity. Qed.

Lemma example_solution_range :
  Forall (fun z => (1 <= z <= 9)%Z) (data example_solution).
Proof.
  apply (solution_facts example_solution eq_refl eq_refl).
  exact example_solution_solves.
Qed.

Lemma example_completes : completes example_solution example_puzzle.
Proof. apply completes_check; [reflexivity|vm_compute; reflexivity]. Qed.

Lemma example_solved :
  solve join_in_order 83 (AArray example_puzzle) = Ret example_solution.
Proof. vm_compute. reflexivity. Qed.

Lemma is_valid_puzzle_accepts_exactly_digit_grids_witness :
  wf_array example_puzzle /\
  (is_valid_puzzle example_puzzle = true <->
   shape example_puzzle = [9; 9] /\
   Forall (fun z => (0 <= z <= 9)%Z) (data example_puzzle)).
Proof.
  split; [reflexivity|].
  exact (is_valid_puzzle_accepts_exactly_digit_grids example_puzzle eq_refl).
Defined.

Lemma to_dictionary_decodes_cell_by_cell_witness :
  shape example_puzzle = [9; 9] /\ wf_array example_puzzle /\
  Forall (fun z => (0 <= z <= 9)%Z) (data example_puzzle) /\
  0 < 9 /\ 2 < 9 /\
  Dict.keys (to_dictionary example_puzzle "0") = cells /\
  nth (9 * 0 + 2) cells "" = cell_at 0 2 /\
  Dict.get (to_dictionary example_puzzle "0") (cell_at 0 2)
  = Ret (if (Np.get2 example_puzzle 0 2 =? 0)%Z then "123456789"
         else digit_string (Np.get2 example_puzzle 0 2)).
Proof.
  split; [reflexivity|]. split; [reflexivity|].
  split; [exact example_puzzle_range|]. split; [lia|]. split; [lia|].
  exact (to_dictionary_decodes_cell_by_cell example_puzzle 0 2 eq_refl eq_refl
           example_puzzle_range ltac:(lia) ltac:(lia)).
Defined.

Lemma encode_after_decode_is_the_grid_witness :
  shape example_solution = [9; 9] /\ wf_array example_solution /\
  Forall (fun z => (1 <= z <= 9)%Z) (data example_solution) /\
  snd (to_numpy_array (as_values (to_dictionary example_solution "0")))
  = Ret example_solution.
Proof.
  split; [reflexivity|]. split; [reflexivity|].
  split; [exact example_solution_range|].
  exact (encode_after_decode_is_the_grid example_solution eq_refl eq_refl
           example_solution_range).
Defined.

Lemma decode_after_encode_is_the_state_witness :
  on_cells (to_dictionary example_solution "0") /\
  all_solved (to_dictionary example_solution "0") /\
  only_digits (to_dictionary example_solution "0") /\
  exists g,
    snd (to_numpy_array (as_values (to_dictionary example_solution "0")))
    = Ret g /\
    to_dictionary g "0" = to_dictionary example_solution "0".
Proof.
  assert (Hd : on_cells (to_dictionary example_solution "0"))
    by (vm_compute; reflexivity).
  assert (Hsol : all_solved (to_dictionary example_solution "0"))
    by exact (filled_solved example_solution eq_refl example_solution_range).
  assert (Hdig : only_digits (to_dictionary example_solution "0")).
  { apply decoded_digits; [reflexivity|].
    eapply Forall_impl; [|exact example_solution_range]. simpl. lia. }
  split; [exact Hd|]. split; [exact Hsol|]. split; [exact Hdig|].
  exact (decode_after_encode_is_the_state _ Hd Hsol Hdig).
Defined.

Lemma three_keys_NoDup : NoDup ["11"; "12"; "13"].
Proof.
  assert (E : nodup string_dec ["11"; "12"; "13"] = ["11"; "12"; "13"])
    by reflexivity.
  rewrite <- E. apply NoDup_nodup.
Qed.


Lemma to_numpy_array_needs_81_items_witness :
  NoDup (Dict.keys [("11", "5"); ("12", "3"); ("13", "7")]) /\
  length [("11", "5"); ("12", "3"); ("13", "7")] <> 81 /\
  Forall2 (fun kv n => Str.int (snd kv) = Ret n)
          [("11", "5"); ("12", "3"); ("13", "7")] [5; 3; 7]%Z /\
  to_numpy_array (as_values [("11", "5"); ("12", "3"); ("13", "7")])
  = (combine (Dict.keys [("11", "5"); ("12", "3"); ("13", "7")])
             (map VInt [5; 3; 7]%Z),
     Raise ValueError).
Proof.
  assert (Hlen : length [("11", "5"); ("12", "3"); ("13", "7")] <> 81)
    by (simpl; lia).
  assert (Hints : Forall2 (fun kv n => Str.int (snd kv) = Ret n)
                    [("11", "5"); ("12", "3"); ("13", "7")] [5; 3; 7]%Z)
    by (repeat (constructor; [reflexivity|]); constructor).
  split; [exact three_keys_NoDup|]. split; [exact Hlen|].
  split; [exact Hints|].
  exact (to_numpy_array_needs_81_items
           [("11", "5"); ("12", "3"); ("13", "7")] [5; 3; 7]%Z
           three_keys_NoDup Hlen Hints).
Defined.

Lemma example_solution_ints :
  Forall2 (fun kv n => Str.int (snd kv) = Ret n)
          (to_dictionary example_solution "0") (data example_solution).
Proof.
  rewrite to_dictionary_items by reflexivity.
  apply filled_ints; [reflexivity|exact example_solution_range].
Qed.

Lemma to_numpy_array_twice_witness :
  NoDup (Dict.keys (to_dictionary example_solution "0")) /\
  length (to_dictionary example_solution "0") = 81 /\
  Forall2 (fun kv n => Str.int (snd kv) = Ret n)
          (to_dictionary example_solution "0") (data example_solution) /\
  to_numpy_array
    (fst (to_numpy_array (as_values (to_dictionary example_solution "0"))))
  = to_numpy_array (as_values (to_dictionary example_solution "0")).
Proof.
  assert (Hnd : NoDup (Dict.keys (to_dictionary example_solution "0"))).
  { apply on_cells_NoDup. vm_compute. reflexivity. }
  split; [exact Hnd|]. split; [reflexivity|].
  split; [exact example_solution_ints|].
  exact (to_numpy_array_twice _ _ Hnd eq_refl example_solution_ints).
Defined.

Lemma neighbours_table_is_symmetric_witness :
  neighbours !! "11" = Some (default ∅ (neighbours !! "11")) /\
  In "11" cells /\ ("11" ∉ default ∅ (neighbours !! "11")) /\
  forall x, x ∈ default ∅ (neighbours !! "11") ->
    In x cells /\ exists xs, neighbours !! x = Some xs /\ "11" ∈ xs.
Proof.
  assert (H : neighbours !! "11" = Some (default ∅ (neighbours !! "11")))
    by (vm_compute; reflexivity).
  split; [exact H|].
  exact (neighbours_table_is_symmetric "11" _ H).
Defined.

Lemma fives_range : Forall (fun z => (1 <= z <= 9)%Z) (data fives_grid).
Proof. apply Forall_forall. intros z Hz. apply repeat_spec in Hz. lia. Qed.

Lemma solve_of_a_filled_grid_witness :
  shape fives_grid = [9; 9] /\ wf_array fives_grid /\
  Forall (fun z => (1 <= z <= 9)%Z) (data fives_grid) /\
  solve join_in_order 2 (AArray fives_grid)
  = Ret (if (zsum (data fives_grid) =? 405)%Z then fives_grid
         else no_solution).
Proof.
  split; [reflexivity|]. split; [reflexivity|]. split; [exact fives_range|].
  exact (solve_of_a_filled_grid join_in_order 0 fives_grid eq_refl eq_refl
           fives_range).
Defined.

Lemma example_on_cells : on_cells (to_dictionary example_puzzle "0").
Proof. vm_compute. reflexivity. Qed.

Lemma pass_only_removes_candidates_witness :
  is_set_join join_in_order /\
  on_cells (to_dictionary example_puzzle "0") /\
  (exists d',
     eliminate join_in_order (Dict.keys (to_dictionary example_puzzle "0"))
               (to_dictionary example_puzzle "0") = Ret d' /\
     on_cells d' /\ shrinks (to_dictionary example_puzzle "0") d' /\
     count_len 1 (to_dictionary example_puzzle "0") <= count_len 1 d') /\
  (forall fuel d',
     elimination_loop join_in_order fuel (to_dictionary example_puzzle "0")
     = Ret (Break d') ->
     on_cells d' /\ shrinks (to_dictionary example_puzzle "0") d').
Proof.
  split; [exact join_in_order_spec|]. split; [exact example_on_cells|].
  exact (pass_only_removes_candidates join_in_order join_in_order_spec _
           example_on_cells).
Defined.

Lemma example_fuel : 81 - count_len 1 (to_dictionary example_puzzle "0") < 82.
Proof. apply Nat.ltb_lt. vm_compute. reflexivity. Qed.

Lemma elimination_loop_terminates_witness :
  on_cells (to_dictionary example_puzzle "0") /\
  81 - count_len 1 (to_dictionary example_puzzle "0") < 82 /\
  exists exit, forall n,
    elimination_loop join_in_order (82 + n) (to_dictionary example_puzzle "0")
    = Ret exit.
Proof.
  split; [exact example_on_cells|]. split; [exact example_fuel|].
  exact (elimination_loop_terminates join_in_order 82 _ example_on_cells
           example_fuel).
Defined.

Lemma empty_on_cells : on_cells (to_dictionary empty_grid "0").
Proof. vm_compute. reflexivity. Qed.

Lemma empty_stalls :
  elimination_loop join_in_order 1 (to_dictionary empty_grid "0")
  = Ret (Break (to_dictionary empty_grid "0")).
Proof. vm_compute. reflexivity. Qed.

Lemma propagate_outcomes_witness :
  on_cells (to_dictionary empty_grid "0") /\
  elimination_loop join_in_order 1 (to_dictionary empty_grid "0")
  = Ret (Break (to_dictionary empty_grid "0")) /\
  propagate join_in_order (solve join_in_order 1) 1
            (to_dictionary empty_grid "0")
  = after_loop (Break (to_dictionary empty_grid "0")).
Proof.
  split; [exact empty_on_cells|]. split; [exact empty_stalls|].
  exact (propagate_outcomes join_in_order 0 1 _ _ empty_on_cells empty_stalls).
Defined.

Lemma solve_terminates_witness :
  wf_array example_puzzle /\ 83 <= 83 /\
  solve join_in_order 83 (AArray example_puzzle)
  = solve join_in_order 83 (AArray example_puzzle) /\
  solve join_in_order 83 (AArray example_puzzle) <> OutOfFuel.
Proof.
  split; [reflexivity|]. split; [lia|].
  exact (solve_terminates join_in_order 83 example_puzzle eq_refl
           (le_n 83)).
Defined.

Lemma example_answer_differs : example_solution <> no_solution.
Proof. discriminate. Qed.

Lemma solve_returns_the_only_solution_witness :
  is_set_join join_in_order /\
  shape example_solution = [9; 9] /\ wf_array example_solution /\
  is_sudoku_solution example_solution = true /\
  wf_array example_puzzle /\ completes example_solution example_puzzle /\
  solve join_in_order 83 (AArray example_puzzle) = Ret example_solution /\
  example_solution <> no_solution /\
  example_solution = example_solution.
Proof.
  split; [exact join_in_order_spec|]. split; [reflexivity|].
  split; [reflexivity|]. split; [exact example_solution_solves|].
  split; [reflexivity|]. split; [exact example_completes|].
  split; [exact example_solved|]. split; [exact example_answer_differs|].
  exact (solve_returns_the_only_solution join_in_order join_in_order_spec
           example_solution eq_refl eq_refl example_solution_solves
           83 example_puzzle example_solution eq_refl example_completes
           example_solved example_answer_differs).
Defined.

Lemma solve_of_a_solvable_puzzle_witness :
  is_set_join join_in_order /\
  shape example_solution = [9; 9] /\ wf_array example_solution /\
  is_sudoku_solution example_solution = true /\
  shape example_puzzle = [9; 9] /\ wf_array example_puzzle /\
  completes example_solution example_puzzle /\ 83 <= 83 /\
  (solve join_in_order 83 (AArray example_puzzle) = Ret example_solution \/
   solve join_in_order 83 (AArray example_puzzle) = Raise AttributeError).
Proof.
  split; [exact join_in_order_spec|]. split; [reflexivity|].
  split; [reflexivity|]. split; [exact example_solution_solves|].
  split; [reflexivity|]. split; [reflexivity|].
  split; [exact example_completes|]. split; [lia|].
  exact (solve_of_a_solvable_puzzle join_in_order join_in_order_spec
           example_solution eq_refl eq_refl example_solution_solves
           83 example_puzzle eq_refl eq_refl example_completes (le_n 83)).
Defined.

Lemma solve_keeps_the_clues_witness :
  is_set_join join_in_order /\
  wf_array example_puzzle /\
  solve join_in_order 83 (AArray example_puzzle) = Ret example_solution /\
  example_solution <> no_solution /\
  shape example_solution = [9; 9] /\
  Forall (fun z => (1 <= z <= 9)%Z) (data example_solution) /\
  zsum (data example_solution) = 405%Z /\
  completes example_solution example_puzzle.
Proof.
  split; [exact join_in_order_spec|]. split; [reflexivity|].
  split; [exact example_solved|]. split; [exact example_answer_differs|].
  exact (solve_keeps_the_clues join_in_order join_in_order_spec 83
           example_puzzle example_solution eq_refl example_solved
           example_answer_differs).
Defined.

Lemma solve_ignores_the_set_order_witness :
  is_set_join join_in_order /\ is_set_join join_reversed /\
  solve join_in_order 83 (AArray example_puzzle)
  = solve join_reversed 83 (AArray example_puzzle).
Proof.
  split; [exact join_in_order_spec|]. split; [exact join_reversed_spec|].
  exact (solve_ignores_the_set_order join_in_order join_reversed
           join_in_order_spec join_reversed_spec 83 example_puzzle).
Defined.

Lemma is_valid_solution_wraps_around_witness :
  shape overflowing_grid = 9 :: [9] /\ wf_array overflowing_grid /\
  is_valid_solution overflowing_grid
  = Ret (wrap64 (zsum (data overflowing_grid)) =? 405)%Z.
Proof.
  split; [reflexivity|]. split; [reflexivity|].
  exact (is_valid_solution_wraps_around overflowing_grid 9 [9]
           eq_refl eq_refl).
Defined.

(** The sum of [overflowing_grid] is not 405, and the grid passes. *)
Lemma overflowing_grid_passes :
  is_valid_solution overflowing_grid = Ret true /\
  zsum (data overflowing_grid) = (2 ^ 64 + 405)%Z.
Proof. split; vm_compute; reflexivity. Qed.
